(** * CaptureFlow: the camera / preview / processing component

    A shallow embedding of [src/pages/camera.tsx]: the React state of the
    [Camera] component, its event handlers ([takePicture], [retakePicture],
    [applyFilter]), the camera effect ([startCamera] and its cleanup), the
    helper [dataURLtoFile] and the conditional rendering that decides which
    controls are on screen.

    Handlers are written once, as programs of a small free monad whose
    commands are the things the TypeScript code does to its surroundings
    (React state setters, refs and DOM elements, the browser, the storage
    client).  [await] is a constructor of its own, so the same program can be
    run to completion against an environment, or only up to the point where
    it suspends. *)

From Stdlib Require Import ZArith String Ascii DecimalString.
From Stdlib Require DecimalPos DecimalZ.
From stdpp Require Import base option list strings.

Local Open Scope Z_scope.
Local Open Scope string_scope.

(** ** Values *)

(** What a [throw] or a rejected promise carries. *)
Inductive Exn : Type :=
| TypeError (message : string)
| InvalidCharacterError
| StorageError (message : string)
| MediaError (name : string).

(** [useState<"camera" | "preview" | "processing">] *)
Inductive AppState : Type := camera | preview | processing.

#[global] Instance AppState_eq_dec : EqDecision AppState.
Proof. solve_decision. Defined.

(** The six [useState] cells of the component. *)
Record Session : Type := mkSession {
  appState : AppState;
  capturedImage : option string;
  selectedFilter : option Z;
  processedImage : option string;
  isUploading : bool;
  error : option string
}.

(** The values passed to [useState] on the first render. *)
Definition initial_session : Session :=
  {| appState := camera; capturedImage := None; selectedFilter := None;
     processedImage := None; isUploading := false; error := None |}.

Record Filter : Type := { id : Z; src : string; name : string }.

Definition filterImages : list Filter :=
  [ {| id := 1; src := "/filters/starry-night.jpg"; name := "Starry Night" |};
    {| id := 2; src := "/filters/scream.jpg"; name := "The Scream" |};
    {| id := 3; src := "/filters/guernica.jpg"; name := "Guernica" |};
    {| id := 4; src := "/filters/persistence-of-memory.jpg";
       name := "Persistence of Memory" |} ].

(** A [File]: its bytes (the [Uint8Array] it was built from), its name and
    the [type] option given to the constructor ([None] for [undefined]). *)
Record File : Type := {
  file_bits : list Z;
  file_name : string;
  file_type : option string
}.

Record UploadOptions : Type := { contentType : string; cacheControl : string }.

(** The object an upload promise resolves to: [{ data, error }]. *)
Record UploadResponse : Type := {
  up_data : option string;
  up_error : option Exn
}.

Record MediaConstraints : Type := { facingMode : string }.

(** Tracks are shared mutable objects: a track is named by its index in the
    track store of the world, and a [MediaStream] is the list of its tracks
    ([getTracks()]). *)
Definition TrackId : Type := nat.
Inductive TrackState : Type := live | ended.
Definition MediaStream : Type := list TrackId.

#[global] Instance TrackState_eq_dec : EqDecision TrackState.
Proof. solve_decision. Defined.

Record Video : Type := {
  videoWidth : Z;
  videoHeight : Z;
  srcObject : option MediaStream
}.

Record Canvas : Type := {
  cv_width : Z;
  cv_height : Z;
  cv_context2d : bool;        (* does [getContext("2d")] give a context *)
  cv_bitmap : list Z
}.

Inductive StorageCall : Type :=
| CallUpload (bucket path : string) (body : File) (opts : UploadOptions)
| CallGetPublicUrl (bucket path : string).

(** ** The world a handler runs in *)

Record World : Type := mkWorld {
  session : Session;                      (* React state *)
  videoRef : option Video;                (* videoRef.current *)
  canvasRef : option Canvas;              (* canvasRef.current *)
  tracks : list TrackState;               (* every track ever handed out *)
  console : list (string * Exn);          (* console.error lines *)
  storage_log : list StorageCall;         (* requests made to the storage client *)
  downloads : list (string * string)      (* (href, download) of clicked links *)
}.

Definition with_session (f : Session -> Session) (w : World) : World :=
  {| session := f (session w); videoRef := videoRef w; canvasRef := canvasRef w;
     tracks := tracks w; console := console w; storage_log := storage_log w;
     downloads := downloads w |}.

Definition with_video (f : Video -> Video) (w : World) : World :=
  {| session := session w; videoRef := f <$> videoRef w; canvasRef := canvasRef w;
     tracks := tracks w; console := console w; storage_log := storage_log w;
     downloads := downloads w |}.

Definition with_canvas (f : Canvas -> Canvas) (w : World) : World :=
  {| session := session w; videoRef := videoRef w; canvasRef := f <$> canvasRef w;
     tracks := tracks w; console := console w; storage_log := storage_log w;
     downloads := downloads w |}.

Definition with_tracks (f : list TrackState -> list TrackState) (w : World) : World :=
  {| session := session w; videoRef := videoRef w; canvasRef := canvasRef w;
     tracks := f (tracks w); console := console w; storage_log := storage_log w;
     downloads := downloads w |}.

Definition log_console (line : string * Exn) (w : World) : World :=
  {| session := session w; videoRef := videoRef w; canvasRef := canvasRef w;
     tracks := tracks w; console := console w ++ [line];
     storage_log := storage_log w; downloads := downloads w |}.

Definition log_storage (c : StorageCall) (w : World) : World :=
  {| session := session w; videoRef := videoRef w; canvasRef := canvasRef w;
     tracks := tracks w; console := console w;
     storage_log := storage_log w ++ [c]; downloads := downloads w |}.

Definition log_download (d : string * string) (w : World) : World :=
  {| session := session w; videoRef := videoRef w; canvasRef := canvasRef w;
     tracks := tracks w; console := console w; storage_log := storage_log w;
     downloads := downloads w ++ [d] |}.

(** The setters returned by [useState].  Every call in the component passes a
    value, never an updater function, so the order of the calls is all that
    matters and batching does not change the state they leave. *)
Definition set_appState (a : AppState) (s : Session) : Session :=
  {| appState := a; capturedImage := capturedImage s;
     selectedFilter := selectedFilter s; processedImage := processedImage s;
     isUploading := isUploading s; error := error s |}.

Definition set_capturedImage (v : option string) (s : Session) : Session :=
  {| appState := appState s; capturedImage := v;
     selectedFilter := selectedFilter s; processedImage := processedImage s;
     isUploading := isUploading s; error := error s |}.

Definition set_selectedFilter (v : option Z) (s : Session) : Session :=
  {| appState := appState s; capturedImage := capturedImage s;
     selectedFilter := v; processedImage := processedImage s;
     isUploading := isUploading s; error := error s |}.

Definition set_processedImage (v : option string) (s : Session) : Session :=
  {| appState := appState s; capturedImage := capturedImage s;
     selectedFilter := selectedFilter s; processedImage := v;
     isUploading := isUploading s; error := error s |}.

Definition set_isUploading (b : bool) (s : Session) : Session :=
  {| appState := appState s; capturedImage := capturedImage s;
     selectedFilter := selectedFilter s; processedImage := processedImage s;
     isUploading := b; error := error s |}.

Definition set_error (v : option string) (s : Session) : Session :=
  {| appState := appState s; capturedImage := capturedImage s;
     selectedFilter := selectedFilter s; processedImage := processedImage s;
     isUploading := isUploading s; error := v |}.

(** ** Commands and programs *)

(** What a handler can do without suspending. *)
Inductive Cmd : Type -> Type :=
| SetAppState (a : AppState) : Cmd unit
| SetCapturedImage (v : option string) : Cmd unit
| SetSelectedFilter (v : option Z) : Cmd unit
| SetProcessedImage (v : option string) : Cmd unit
| SetIsUploading (b : bool) : Cmd unit
| SetError (v : option string) : Cmd unit
| VideoRefCurrent : Cmd (option Video)
| CanvasRefCurrent : Cmd (option Canvas)
| VideoSetSrcObject (stream : MediaStream) : Cmd unit
| TrackStop (t : TrackId) : Cmd unit
| CanvasSetWidth (w : Z) : Cmd unit
| CanvasSetHeight (h : Z) : Cmd unit
| CanvasWidth : Cmd Z
| CanvasHeight : Cmd Z
| CanvasGetContext (kind : string) : Cmd bool
| ContextDrawImage (image : Video) (dx dy dw dh : Z) : Cmd unit
| CanvasToDataURL (type : string) : Cmd string
| DateNow : Cmd Z
| Atob (data : string) : Cmd (option string)
| StorageGetPublicUrl (bucket path : string) : Cmd (Exn + string)
| ConsoleError (label : string) (err : Exn) : Cmd unit
| LinkClick (href download : string) : Cmd unit.

(** The two promises the component awaits. *)
Inductive Await : Type :=
| AwGetUserMedia (constraints : MediaConstraints)
| AwUpload (bucket path : string) (body : File) (opts : UploadOptions).

Definition Settled (a : Await) : Type :=
  match a with
  | AwGetUserMedia _ => MediaStream
  | AwUpload _ _ _ _ => UploadResponse
  end.

Inductive Prog (A : Type) : Type :=
| Ret (a : A)
| Throw (e : Exn)
| Vis {X : Type} (c : Cmd X) (k : X -> Prog A)
| Wait (a : Await) (k : Exn + Settled a -> Prog A).

Arguments Ret {A} a.
Arguments Throw {A} e.
Arguments Vis {A X} c k.
Arguments Wait {A} a k.

Fixpoint bind {A B : Type} (p : Prog A) (f : A -> Prog B) : Prog B :=
  match p with
  | Ret a => f a
  | Throw e => Throw e
  | Vis c k => Vis c (fun x => bind (k x) f)
  | Wait a k => Wait a (fun r => bind (k r) f)
  end.

#[global] Instance prog_ret : MRet Prog := @Ret.
#[global] Instance prog_bind : MBind Prog := fun A B f p => bind p f.

(** [try { p } catch (err) { h err }] *)
Fixpoint try_catch {A : Type} (p : Prog A) (h : Exn -> Prog A) : Prog A :=
  match p with
  | Ret a => Ret a
  | Throw e => h e
  | Vis c k => Vis c (fun x => try_catch (k x) h)
  | Wait a k => Wait a (fun r => try_catch (k r) h)
  end.

Definition call {X : Type} (c : Cmd X) : Prog X := Vis c Ret.

(** [await promise]: a rejection is thrown at the await. *)
Definition await (a : Await) : Prog (Settled a) :=
  Wait a (fun r => match r with inl e => Throw e | inr v => Ret v end).

(** [xs.forEach(f)] *)
Fixpoint forEach {X : Type} (xs : list X) (f : X -> Prog unit) : Prog unit :=
  match xs with
  | [] => Ret tt
  | x :: rest => f x;; forEach rest f
  end.

(** ** Everything outside the component

    The browser and the storage client are not part of the repository; an
    [Env] fixes how they answer.  Theorems quantify over every [Env]. *)
Record Env : Type := {
  date_now : Z;                                           (* Date.now() *)
  atob_impl : string -> option string;                    (* None: atob throws *)
  drawImage_impl : Video -> Z -> Z -> Z -> Z -> Canvas -> list Z;
  toDataURL_impl : Canvas -> string -> string;
  getPublicUrl_impl : string -> string -> Exn + string;   (* inl: it throws *)
  getUserMedia_impl : MediaConstraints -> Exn + nat;      (* inr n: a stream of n tracks *)
  upload_impl : string -> string -> File -> UploadOptions -> Exn + UploadResponse
}.

(** Assigning [canvas.width] or [canvas.height] clears the bitmap. *)
Definition canvas_set_width (w : Z) (c : Canvas) : Canvas :=
  {| cv_width := w; cv_height := cv_height c;
     cv_context2d := cv_context2d c; cv_bitmap := [] |}.

Definition canvas_set_height (h : Z) (c : Canvas) : Canvas :=
  {| cv_width := cv_width c; cv_height := h;
     cv_context2d := cv_context2d c; cv_bitmap := [] |}.

Definition canvas_paint (bits : list Z) (c : Canvas) : Canvas :=
  {| cv_width := cv_width c; cv_height := cv_height c;
     cv_context2d := cv_context2d c; cv_bitmap := bits |}.

Definition video_set_srcObject (s : MediaStream) (v : Video) : Video :=
  {| videoWidth := videoWidth v; videoHeight := videoHeight v;
     srcObject := Some s |}.

Definition video_set_size (vw vh : Z) (v : Video) : Video :=
  {| videoWidth := vw; videoHeight := vh; srcObject := srcObject v |}.

(** One command, performed at once.  Commands on the video or the canvas act
    on the element the ref points to; the component issues them only under a
    guard that the ref is set. *)
Definition perform (E : Env) {X : Type} (c : Cmd X) (w : World) : X * World :=
  match c in Cmd X return X * World with
  | SetAppState a => (tt, with_session (set_appState a) w)
  | SetCapturedImage v => (tt, with_session (set_capturedImage v) w)
  | SetSelectedFilter v => (tt, with_session (set_selectedFilter v) w)
  | SetProcessedImage v => (tt, with_session (set_processedImage v) w)
  | SetIsUploading b => (tt, with_session (set_isUploading b) w)
  | SetError v => (tt, with_session (set_error v) w)
  | VideoRefCurrent => (videoRef w, w)
  | CanvasRefCurrent => (canvasRef w, w)
  | VideoSetSrcObject s => (tt, with_video (video_set_srcObject s) w)
  | TrackStop t => (tt, with_tracks (fun ts => <[t := ended]> ts) w)
  | CanvasSetWidth x => (tt, with_canvas (canvas_set_width x) w)
  | CanvasSetHeight x => (tt, with_canvas (canvas_set_height x) w)
  | CanvasWidth => (from_option cv_width 0 (canvasRef w), w)
  | CanvasHeight => (from_option cv_height 0 (canvasRef w), w)
  | CanvasGetContext _ =>
      (match canvasRef w with Some cv => cv_context2d cv | None => false end, w)
  | ContextDrawImage image dx dy dw dh =>
      (tt, with_canvas
             (fun cv => canvas_paint (drawImage_impl E image dx dy dw dh cv) cv) w)
  | CanvasToDataURL type =>
      (match canvasRef w with Some cv => toDataURL_impl E cv type | None => "" end, w)
  | DateNow => (date_now E, w)
  | Atob data => (atob_impl E data, w)
  | StorageGetPublicUrl bucket path =>
      (getPublicUrl_impl E bucket path, log_storage (CallGetPublicUrl bucket path) w)
  | ConsoleError label err => (tt, log_console (label, err) w)
  | LinkClick href download => (tt, log_download (href, download) w)
  end.

(** A granted stream consists of fresh live tracks. *)
Definition grant_stream (n : nat) (w : World) : MediaStream * World :=
  (seq (length (tracks w)) n, with_tracks (fun ts => (ts ++ replicate n live)%list) w).

(** The request behind an awaited promise leaves when the promise is made. *)
Definition request_sent (a : Await) (w : World) : World :=
  match a with
  | AwGetUserMedia _ => w
  | AwUpload bucket path body opts =>
      log_storage (CallUpload bucket path body opts) w
  end.

(** How an awaited promise settles when nothing else happens in between. *)
Definition settle (E : Env) (a : Await) (w : World) : (Exn + Settled a) * World :=
  match a return (Exn + Settled a) * World with
  | AwGetUserMedia constraints =>
      match getUserMedia_impl E constraints with
      | inl e => (inl e, w)
      | inr n => let '(s, w') := grant_stream n w in (inr s, w')
      end
  | AwUpload bucket path body opts =>
      (upload_impl E bucket path body opts,
       request_sent (AwUpload bucket path body opts) w)
  end.

(** Run a program to its end: each await settles as [E] says. *)
Fixpoint run {A : Type} (E : Env) (p : Prog A) (w : World) : (Exn + A) * World :=
  match p with
  | Ret a => (inr a, w)
  | Throw e => (inl e, w)
  | Vis c k => let '(x, w') := perform E c w in run E (k x) w'
  | Wait a k => let '(r, w') := settle E a w in run E (k r) w'
  end.

(** Run a program until it returns, throws or reaches an await. *)
Inductive Status (A : Type) : Type :=
| Done (a : A)
| Raised (e : Exn)
| Awaiting (a : Await) (k : Exn + Settled a -> Prog A).

Arguments Done {A} a.
Arguments Raised {A} e.
Arguments Awaiting {A} a k.

Fixpoint run_to_await {A : Type} (E : Env) (p : Prog A) (w : World)
  : Status A * World :=
  match p with
  | Ret a => (Done a, w)
  | Throw e => (Raised e, w)
  | Vis c k => let '(x, w') := perform E c w in run_to_await E (k x) w'
  | Wait a k => (Awaiting a k, w)
  end.

(** The await a status is parked on. *)
Definition awaited {A : Type} (st : Status A) : option Await :=
  match st with
  | Awaiting a _ => Some a
  | _ => None
  end.

(** ** String helpers used by [dataURLtoFile]

    JavaScript strings are modelled as byte strings; data URLs and the
    binary strings returned by [atob] only hold code units below 256. *)

(** [s.split(sep)] for a one-character separator: never the empty array. *)
Fixpoint split_on (sep : ascii) (s : string) : list string :=
  match s with
  | EmptyString => [EmptyString]
  | String c rest =>
      if Ascii.eqb c sep then EmptyString :: split_on sep rest
      else match split_on sep rest with
           | h :: t => String c h :: t
           | [] => [String c EmptyString]
           end
  end.

(** The line terminators, which [.] does not match: of the four, the two a
    byte string can hold. *)
Definition is_line_terminator (c : ascii) : bool :=
  Ascii.eqb c "010"%char || Ascii.eqb c "013"%char.

(** The group of [(.*?);] matched at the start of [s]: the text before the
    first [;], if no line terminator comes before it. *)
Fixpoint lazy_until_semicolon (s : string) : option string :=
  match s with
  | EmptyString => None
  | String c rest =>
      if Ascii.eqb c ";"%char then Some EmptyString
      else if is_line_terminator c then None
      else String c <$> lazy_until_semicolon rest
  end.

(** [s.match(/:(.*?);/)?.[1]]: the leftmost [:] from which the pattern
    matches, and the group it captures there. *)
Fixpoint match_mime (s : string) : option string :=
  match s with
  | EmptyString => None
  | String c rest =>
      if Ascii.eqb c ":"%char then
        match lazy_until_semicolon rest with
        | Some m => Some m
        | None => match_mime rest
        end
      else match_mime rest
  end.

(** [s.charCodeAt(i)]; [None] stands for [NaN]. *)
Definition charCodeAt (s : string) (i : nat) : option Z :=
  (fun c => Z.of_N (N_of_ascii c)) <$> String.get i s.

(** Storing into a [Uint8Array] wraps modulo 256 and turns [NaN] into 0. *)
Definition to_uint8 (v : option Z) : Z :=
  match v with Some z => z mod 256 | None => 0 end.

(** The code units of a binary string. *)
Definition string_bytes (s : string) : list Z :=
  (fun c => Z.of_N (N_of_ascii c)) <$> list_ascii_of_string s.

(** [while (n--) { u8arr[n] = bstr.charCodeAt(n); }] *)
Fixpoint fill_u8arr (bstr : string) (n : nat) (u8arr : list Z) : list Z :=
  match n with
  | O => u8arr
  | S n' => fill_u8arr bstr n' (<[n' := to_uint8 (charCodeAt bstr n')]> u8arr)
  end.

(** A JavaScript value passed where a string is expected: [undefined]
    becomes the string "undefined". *)
Definition to_DOMString (v : option string) : string :=
  match v with Some s => s | None => "undefined" end.

(** Template literal interpolation of an integer. *)
Definition number_to_string (z : Z) : string :=
  NilZero.string_of_int (Z.to_int z).

(** Truthiness of a [string | null] value. *)
Definition truthy (v : option string) : bool :=
  match v with
  | None => false
  | Some s => negb (String.eqb s EmptyString)
  end.

(** ** The source *)

Definition atob (data : string) : Prog string :=
  r ← call (Atob data);
  match r with
  | Some bstr => Ret bstr
  | None => Throw InvalidCharacterError
  end.

(** [dataURLtoFile].  Its parameter is typed [string], but the one call site
    passes [capturedImage!], which is [null] at run time when no picture was
    taken; calling [.split] on it throws. *)
Definition dataURLtoFile (dataurl : option string) (filename : string) : Prog File :=
  match dataurl with
  | None => Throw (TypeError "Cannot read properties of null (reading 'split')")
  | Some dataurl =>
      let arr := split_on ","%char dataurl in
      let mime := (arr !! 0%nat) ≫= match_mime in
      bstr ← atob (to_DOMString (arr !! 1%nat));
      let n := String.length bstr in
      let u8arr := fill_u8arr bstr n (replicate n 0) in
      Ret {| file_bits := u8arr; file_name := filename; file_type := mime |}
  end.

(** The body of the camera effect: [startCamera]. *)
Definition startCamera : Prog unit :=
  try_catch
    (stream ← await (AwGetUserMedia {| facingMode := "user" |});
     video ← call VideoRefCurrent;
     match video with
     | Some _ => call (VideoSetSrcObject stream)
     | None => Ret tt
     end)
    (fun err => call (ConsoleError "Error accessing camera:" err)).

(** The function the camera effect returns. *)
Definition stopCamera : Prog unit :=
  video ← call VideoRefCurrent;
  match video ≫= srcObject with
  | Some stream => forEach stream (fun track => call (TrackStop track))
  | None => Ret tt
  end.

(** [useEffect(..., [appState])]: what runs after a commit in which
    [appState] changed, and the cleanup it registers. *)
Definition cameraEffect (a : AppState) : option (Prog unit * Prog unit) :=
  if decide (a = camera) then Some (startCamera, stopCamera) else None.

Definition takePicture : Prog unit :=
  video ← call VideoRefCurrent;
  canvas ← call CanvasRefCurrent;
  match video, canvas with
  | Some video, Some _ =>
      call (CanvasSetWidth (videoWidth video));;
      call (CanvasSetHeight (videoHeight video));;
      context ← call (CanvasGetContext "2d");
      if context : bool then
        dw ← call CanvasWidth;
        dh ← call CanvasHeight;
        call (ContextDrawImage video 0 0 dw dh);;
        imageDataUrl ← call (CanvasToDataURL "image/png");
        call (SetCapturedImage (Some imageDataUrl));;
        call (SetAppState preview)
      else Ret tt
  | _, _ => Ret tt
  end.

Definition retakePicture : Prog unit :=
  call (SetCapturedImage None);;
  call (SetSelectedFilter None);;
  call (SetAppState camera).

Definition upload_failed_message : string :=
  "Failed to upload image. Please try again.".

Section Camera.

(** [import supabase, { BUCKET_ID } from "../lib/supabase"]: the module is
    not among the sources; the bucket identifier is whatever it exports. *)
Variable BUCKET_ID : string.

(** The body of the [try] block of [applyFilter]. *)
Definition applyFilter_try (capturedImage : option string) : Prog unit :=
  call (SetIsUploading true);;
  now ← call DateNow;
  imageFile ← dataURLtoFile capturedImage
                ("photo-" +:+ number_to_string now +:+ ".png");
  response ← await (AwUpload BUCKET_ID ("originals/" +:+ file_name imageFile)
                      imageFile
                      {| contentType := "image/png"; cacheControl := "3600" |});
  match up_error response with
  | Some uploadError => Throw uploadError
  | None =>
      publicUrlData ← call (StorageGetPublicUrl BUCKET_ID
                              ("originals/" +:+ file_name imageFile));
      match publicUrlData with
      | inl e => Throw e
      | inr publicUrl =>
          call (SetProcessedImage (Some publicUrl));;
          call (SetIsUploading false)
      end
  end.

(** The [catch] block of [applyFilter]. *)
Definition applyFilter_catch (err : Exn) : Prog unit :=
  call (ConsoleError "Error uploading image:" err);;
  call (SetError (Some upload_failed_message));;
  call (SetIsUploading false);;
  call (SetAppState preview).

(** The three statements of [applyFilter] in front of its [try]. *)
Definition applyFilter_enter (filterId : Z) : Prog unit :=
  call (SetSelectedFilter (Some filterId));;
  call (SetAppState processing);;
  call (SetError None).

(** [applyFilter], as created by the render that saw [capturedImage]. *)
Definition applyFilter (capturedImage : option string) (filterId : Z) : Prog unit :=
  applyFilter_enter filterId;;
  try_catch (applyFilter_try capturedImage) applyFilter_catch.

(** The [try] block, run from the world its three preceding statements
    leave: [inl e] when it throws [e], [inr tt] when it runs to its end. *)
Definition attempt (E : Env) (capturedImage : option string) (filterId : Z)
    (w : World)
  : (Exn + unit) * World :=
  run E (applyFilter_try capturedImage)
    (snd (run E (applyFilter_enter filterId) w)).

(** The ways the [try] block can throw [e]: before the upload is requested
    (decoding), when the upload promise rejects, when it resolves to an
    error, and when the public URL cannot be resolved. *)
Definition failure_cause (E : Env) (ci : option string) (fid : Z) (w : World)
    (e : Exn) : Prop :=
  let w1 := snd (run E (applyFilter_enter fid) w) in
  let st := fst (run_to_await E (applyFilter_try ci) w1) in
  st = Raised e
  \/ exists bucket path body opts,
       awaited st = Some (AwUpload bucket path body opts) /\
       (upload_impl E bucket path body opts = inl e
        \/ (exists r, upload_impl E bucket path body opts = inr r /\
                      up_error r = Some e)
        \/ (exists r, upload_impl E bucket path body opts = inr r /\
                      up_error r = None /\
                      getPublicUrl_impl E bucket path = inl e)).

End Camera.

(** ** Rendering

    The JSX returned by [Camera]: which of the conditional blocks is on
    screen, and the [onClick] handler of each control in it. *)
Inductive View : Type :=
| CameraView                          (* the live video and the shutter button *)
| PreviewView (captured : string)     (* the capture, retake, the filter tiles *)
| NothingView                         (* only the hidden canvas *)
| ErrorView (message : string)        (* the error text and Try Again *)
| SpinnerView (caption : string)
| ResultView (processed : string).    (* the result, Take New Photo, Download *)

Definition render (s : Session) : View :=
  match appState s with
  | camera => CameraView
  | preview =>
      if truthy (capturedImage s)
      then PreviewView (default EmptyString (capturedImage s))
      else NothingView
  | processing =>
      if truthy (error s) then ErrorView (default EmptyString (error s))
      else if negb (truthy (processedImage s)) then
        SpinnerView (if isUploading s then "Uploading image..."
                     else "Applying artistic style...")
      else ResultView (default EmptyString (processedImage s))
  end.

(** The text put in front of the user, if any. *)
Definition user_message (v : View) : option string :=
  match v with
  | ErrorView message => Some message
  | SpinnerView caption => Some caption
  | _ => None
  end.

(** Is the [<video ref={videoRef}>] element part of the view. *)
Definition shows_video (v : View) : bool :=
  match v with CameraView => true | _ => false end.

Inductive Control : Type :=
| Shutter
| Retake
| FilterTile (filterId : Z)
| TryAgain
| TakeNewPhoto
| Download.

#[global] Instance Control_eq_dec : EqDecision Control.
Proof. solve_decision. Defined.

Section Handlers.

Variable BUCKET_ID : string.

(** The controls on screen for a session, each with its [onClick]. *)
Definition controls (s : Session) : list (Control * Prog unit) :=
  match render s with
  | CameraView => [(Shutter, takePicture)]
  | PreviewView _ =>
      (Retake, retakePicture)
      :: map (fun filter =>
                (FilterTile (id filter),
                 applyFilter BUCKET_ID (capturedImage s) (id filter)))
           filterImages
  | NothingView => []
  | ErrorView _ => [(TryAgain, call (SetAppState preview))]
  | SpinnerView _ => []
  | ResultView processed =>
      [(TakeNewPhoto, retakePicture);
       (Download, call (LinkClick processed "artistic-photo.png"))]
  end.

(** The handler of a control, if the control is on screen. *)
Definition onClick (s : Session) (c : Control) : option (Prog unit) :=
  match list_find (fun ch => fst ch = c) (controls s) with
  | Some (_, (_, h)) => Some h
  | None => None
  end.

(** One user action, run to completion: a control that is on screen is
    clicked, and its handler runs in some world that holds the session.
    The elements behind the refs and the answers of the environment are
    not constrained. *)
Inductive session_step (s : Session) : Control -> Session -> Prop :=
| step_click (E : Env) (w : World) (c : Control) (h : Prog unit) :
    session w = s ->
    onClick s c = Some h ->
    session_step s c (session (snd (run E h w))).

(** Sessions reachable from the first render, with the controls clicked. *)
Inductive reachable : list Control -> Session -> Prop :=
| reach_init : reachable [] initial_session
| reach_step tr s c s' :
    reachable tr s -> session_step s c s' -> reachable (tr ++ [c]) s'.

End Handlers.

(** ** The component over time

    Handlers that suspend, promises that settle later, and what React does
    around a commit.  A [Machine] holds the world, the suspended async
    functions, the cleanup registered by the last run of the camera effect
    and (as a record of history) every stream the platform has handed out. *)

Record Pending : Type := {
  pending_on : Await;
  resume : Exn + Settled pending_on -> Prog unit
}.

Record Machine : Type := {
  world : World;
  mounted : bool;
  cleanup : option (Prog unit);
  pending : list Pending;
  granted : list MediaStream
}.

Inductive Event : Type :=
| Mount                                      (* first render of the component *)
| Unmount                                    (* teardown *)
| Click (c : Control)
| CameraGranted (n : nat)                    (* getUserMedia resolves: n tracks *)
| CameraDenied (e : Exn)                     (* getUserMedia rejects *)
| VideoMetadata (w h : Z)                    (* the bound stream starts playing *)
| UploadSettled (r : Exn + UploadResponse).  (* the upload promise settles *)

Definition empty_world : World :=
  {| session := initial_session; videoRef := None; canvasRef := None;
     tracks := []; console := []; storage_log := []; downloads := [] |}.

Definition initial_machine : Machine :=
  {| world := empty_world; mounted := false; cleanup := None;
     pending := []; granted := [] |}.

(** A freshly created [<video>] and [<canvas>] element. *)
Definition fresh_video : Video :=
  {| videoWidth := 0; videoHeight := 0; srcObject := None |}.

Definition fresh_canvas : Canvas :=
  {| cv_width := 300; cv_height := 150; cv_context2d := true; cv_bitmap := [] |}.

Definition with_world (f : World -> World) (m : Machine) : Machine :=
  {| world := f (world m); mounted := mounted m; cleanup := cleanup m;
     pending := pending m; granted := granted m |}.

Definition with_cleanup (c : option (Prog unit)) (m : Machine) : Machine :=
  {| world := world m; mounted := mounted m; cleanup := c;
     pending := pending m; granted := granted m |}.

Definition with_pending (ps : list Pending) (m : Machine) : Machine :=
  {| world := world m; mounted := mounted m; cleanup := cleanup m;
     pending := ps; granted := granted m |}.

Definition with_mounted (b : bool) (m : Machine) : Machine :=
  {| world := world m; mounted := b; cleanup := cleanup m;
     pending := pending m; granted := granted m |}.

Definition set_videoRef (v : option Video) (w : World) : World :=
  {| session := session w; videoRef := v; canvasRef := canvasRef w;
     tracks := tracks w; console := console w; storage_log := storage_log w;
     downloads := downloads w |}.

Definition set_canvasRef (c : option Canvas) (w : World) : World :=
  {| session := session w; videoRef := videoRef w; canvasRef := c;
     tracks := tracks w; console := console w; storage_log := storage_log w;
     downloads := downloads w |}.

(** Start (or continue) an async function: it runs until it finishes or
    reaches an await, where it is parked.  An exception that escapes is an
    unhandled one; nothing in the component observes it. *)
Definition spawn (E : Env) (p : Prog unit) (m : Machine) : Machine :=
  match run_to_await E p (world m) with
  | (Awaiting a k, w') =>
      with_pending (pending m ++ [{| pending_on := a; resume := k |}])
        (with_world (fun _ => request_sent a w') m)
  | (_, w') => with_world (fun _ => w') m
  end.

Definition resume_camera (p : Pending) (r : Exn + MediaStream) : option (Prog unit) :=
  match p with
  | Build_Pending a k =>
      match a return (Exn + Settled a -> Prog unit) -> option (Prog unit) with
      | AwGetUserMedia _ => fun k => Some (k r)
      | AwUpload _ _ _ _ => fun _ => None
      end k
  end.

Definition resume_upload (p : Pending) (r : Exn + UploadResponse) : option (Prog unit) :=
  match p with
  | Build_Pending a k =>
      match a return (Exn + Settled a -> Prog unit) -> option (Prog unit) with
      | AwGetUserMedia _ => fun _ => None
      | AwUpload _ _ _ _ => fun k => Some (k r)
      end k
  end.

(** The oldest parked function that [f] can resume, and the others. *)
Fixpoint take_first (f : Pending -> option (Prog unit)) (ps : list Pending)
  : option (Prog unit * list Pending) :=
  match ps with
  | [] => None
  | p :: rest =>
      match f p with
      | Some k => Some (k, rest)
      | None =>
          match take_first f rest with
          | Some (k, rest') => Some (k, p :: rest')
          | None => None
          end
      end
  end.

(** Is some track of the stream still live. *)
Definition is_active (w : World) (s : MediaStream) : bool :=
  existsb (fun t => bool_decide (tracks w !! t = Some live)) s.

Definition active_streams (m : Machine) : list MediaStream :=
  filter (fun s => is_active (world m) s = true) (granted m).

(** What can be seen of a machine from outside. *)
Record Observation : Type := {
  obs_mounted : bool;
  obs_appState : AppState;
  obs_videoRef : option Video;
  obs_cleanup : bool;                 (* is a cleanup registered *)
  obs_pending : nat;                  (* how many async functions are parked *)
  obs_granted : list MediaStream;
  obs_tracks : list TrackState;
  obs_active : list MediaStream
}.

Definition observe (m : Machine) : Observation :=
  {| obs_mounted := mounted m;
     obs_appState := appState (session (world m));
     obs_videoRef := videoRef (world m);
     obs_cleanup := bool_decide (is_Some (cleanup m));
     obs_pending := length (pending m);
     obs_granted := granted m;
     obs_tracks := tracks (world m);
     obs_active := active_streams m |}.

Section Lifecycle.

Variable BUCKET_ID : string.
Variable E : Env.

(** React detaches the ref of a removed element while it mutates the DOM,
    and runs effect cleanups in a later phase.  Whether a cleanup still
    sees the old ref has differed between React versions, so the order is a
    parameter: results are stated for both settings. *)
Variable detach_first : bool.

(** The [<video>] element, and with it [videoRef.current], exists exactly
    while the view that contains it is rendered. *)
Definition detach_video (m : Machine) : Machine :=
  if shows_video (render (session (world m))) then m
  else with_world (set_videoRef None) m.

Definition attach_video (m : Machine) : Machine :=
  if shows_video (render (session (world m))) then
    match videoRef (world m) with
    | Some _ => m
    | None => with_world (set_videoRef (Some fresh_video)) m
    end
  else m.

Definition run_cleanup (m : Machine) : Machine :=
  match cleanup m with
  | Some c => spawn E c (with_cleanup None m)
  | None => m
  end.

Definition run_effect (a : AppState) (m : Machine) : Machine :=
  match cameraEffect a with
  | Some (body, c) => with_cleanup (Some c) (spawn E body m)
  | None => m
  end.

(** The commit after an update.  The camera effect has [appState] as its
    only dependency: when it changed, the registered cleanup runs and then
    the effect; the [<video>] element exists only in the camera view. *)
Definition commit (before : AppState) (m : Machine) : Machine :=
  let after := appState (session (world m)) in
  if decide (before = after) then m
  else
    let m1 := if detach_first
              then run_cleanup (detach_video m)
              else detach_video (run_cleanup m) in
    run_effect after (attach_video m1).

(** Run a piece of code and, while the component is mounted, commit the
    update it caused. *)
Definition dispatch (p : Prog unit) (m : Machine) : Machine :=
  if mounted m then commit (appState (session (world m))) (spawn E p m)
  else spawn E p m.

Definition mstep (m : Machine) (ev : Event) : option Machine :=
  match ev with
  | Mount =>
      if mounted m then None
      else
        let w := set_canvasRef (Some fresh_canvas)
                   (with_session (fun _ => initial_session) (world m)) in
        let m1 := with_mounted true (with_world (fun _ => w) m) in
        Some (run_effect (appState (session (world m1))) (attach_video m1))
  | Unmount =>
      if mounted m then
        let drop := with_world (fun w => set_canvasRef None (set_videoRef None w)) in
        let m1 := if detach_first then run_cleanup (drop m)
                  else drop (run_cleanup m) in
        Some (with_mounted false m1)
      else None
  | Click c =>
      if mounted m then
        h ← onClick BUCKET_ID (session (world m)) c;
        Some (dispatch h m)
      else None
  | CameraGranted n =>
      let '(s, w) := grant_stream n (world m) in
      '(k, rest) ← take_first (fun p => resume_camera p (inr s)) (pending m);
      Some (dispatch k
              {| world := w; mounted := mounted m; cleanup := cleanup m;
                 pending := rest; granted := granted m ++ [s] |})
  | CameraDenied e =>
      '(k, rest) ← take_first (fun p => resume_camera p (inl e)) (pending m);
      Some (dispatch k (with_pending rest m))
  | VideoMetadata vw vh =>
      v ← videoRef (world m);
      _ ← srcObject v;
      Some (with_world (with_video (video_set_size vw vh)) m)
  | UploadSettled r =>
      '(k, rest) ← take_first (fun p => resume_upload p r) (pending m);
      Some (dispatch k (with_pending rest m))
  end.

Fixpoint run_schedule (evs : list Event) (m : Machine) : option Machine :=
  match evs with
  | [] => Some m
  | ev :: rest => m' ← mstep m ev; run_schedule rest m'
  end.

End Lifecycle.

(** ** A reference environment

    Used to run the definitions on concrete inputs: [atob] as the HTML
    standard defines it (forgiving base64), a storage client that serves
    everything, and a camera with one video track.  Pixels are not modelled:
    the bitmap of a canvas records the rectangle last drawn, and every
    canvas that is not empty encodes to the same PNG. *)

Definition is_ascii_whitespace (c : ascii) : bool :=
  let n := N_of_ascii c in
  (n =? 9)%N || (n =? 10)%N || (n =? 12)%N || (n =? 13)%N || (n =? 32)%N.

Definition base64_value (c : ascii) : option N :=
  let n := N_of_ascii c in
  if ((65 <=? n) && (n <=? 90))%N then Some (n - 65)%N
  else if ((97 <=? n) && (n <=? 122))%N then Some (n - 71)%N
  else if ((48 <=? n) && (n <=? 57))%N then Some (n + 4)%N
  else if (n =? 43)%N then Some 62%N
  else if (n =? 47)%N then Some 63%N
  else None.

(** Drop at most [k] trailing [=]. *)
Fixpoint drop_padding (k : nat) (rev_data : list ascii) : list ascii :=
  match k, rev_data with
  | S k', c :: rest =>
      if Ascii.eqb c "="%char then drop_padding k' rest else rev_data
  | _, _ => rev_data
  end.

Fixpoint decode_sextets (fuel : nat) (v : list N) : list N :=
  match fuel with
  | O => []
  | S fuel' =>
      match v with
      | a :: b :: c :: d :: rest =>
          let n := (a * 262144 + b * 4096 + c * 64 + d)%N in
          (n / 65536)%N :: ((n / 256) mod 256)%N :: (n mod 256)%N
            :: decode_sextets fuel' rest
      | [a; b; c] =>
          let n := (a * 4096 + b * 64 + c)%N in
          [(n / 1024)%N; ((n / 4) mod 256)%N]
      | [a; b] => [((a * 64 + b) / 16)%N]
      | _ => []
      end
  end.

Definition atob_reference (data : string) : option string :=
  let chars := filter (fun c => is_ascii_whitespace c = false)
                 (list_ascii_of_string data) in
  let chars := if (length chars mod 4 =? 0)%nat
               then rev (drop_padding 2 (rev chars)) else chars in
  if (length chars mod 4 =? 1)%nat then None
  else
    sextets ← mapM base64_value chars;
    Some (string_of_list_ascii
            (ascii_of_N <$> decode_sextets (length sextets) sextets)).

Definition png_signature_url : string := "data:image/png;base64,iVBORw0KGgo=".

Definition reference_env : Env :=
  {| date_now := 1700000000000;
     atob_impl := atob_reference;
     drawImage_impl := fun image dx dy dw dh cv => [dx; dy; dw; dh];
     toDataURL_impl := fun cv type =>
                         if (cv_width cv =? 0)%Z || (cv_height cv =? 0)%Z
                         then "data:,"
                         else png_signature_url;
     getPublicUrl_impl := fun bucket path =>
                            inr ("https://storage.example/" +:+ bucket
                                 +:+ "/" +:+ path);
     getUserMedia_impl := fun _ => inr 1%nat;
     upload_impl := fun bucket path body opts =>
                      inr {| up_data := Some path; up_error := None |} |}.


(** The same, with a camera the user refuses. *)
Definition denied_camera_env : Env :=
  {| date_now := date_now reference_env;
     atob_impl := atob_impl reference_env;
     drawImage_impl := drawImage_impl reference_env;
     toDataURL_impl := toDataURL_impl reference_env;
     getPublicUrl_impl := getPublicUrl_impl reference_env;
     getUserMedia_impl := fun _ => inl (MediaError "NotAllowedError");
     upload_impl := upload_impl reference_env |}.

(** Sessions and worlds used in the concrete runs below. *)

Definition photo_url : string :=
  "https://storage.example/photos/originals/photo-1700000000000.png".

(** A world that holds the given session, with a canvas and, in the camera
    view, a video element playing a 640 x 480 stream. *)
Definition world_of (s : Session) : World :=
  {| session := s;
     videoRef := if decide (appState s = camera)
                 then Some {| videoWidth := 640; videoHeight := 480;
                              srcObject := Some [0%nat] |}
                 else None;
     canvasRef := Some fresh_canvas;
     tracks := [live]; console := []; storage_log := []; downloads := [] |}.

(** The session after the first capture. *)
Definition first_preview : Session :=
  {| appState := preview; capturedImage := Some png_signature_url;
     selectedFilter := None; processedImage := None;
     isUploading := false; error := None |}.

(** After choosing filter 1, the upload having succeeded. *)
Definition first_result : Session :=
  {| appState := processing; capturedImage := Some png_signature_url;
     selectedFilter := Some 1; processedImage := Some photo_url;
     isUploading := false; error := None |}.

(** After Take New Photo. *)
Definition back_in_camera : Session :=
  {| appState := camera; capturedImage := None;
     selectedFilter := None; processedImage := Some photo_url;
     isUploading := false; error := None |}.

(** After the second capture. *)
Definition second_preview : Session :=
  {| appState := preview; capturedImage := Some png_signature_url;
     selectedFilter := None; processedImage := Some photo_url;
     isUploading := false; error := None |}.


(** ** Notions used to state further properties *)

(** Does the character occur in the string. *)
Fixpoint has_char (c : ascii) (s : string) : bool :=
  match s with
  | EmptyString => false
  | String a rest => Ascii.eqb a c || has_char c rest
  end.

Definition has_line_terminator (s : string) : bool :=
  has_char "010"%char s || has_char "013"%char s.

(** The track store after [track.stop()] on each track of a stream. *)
Definition stop_all (stream : MediaStream) (ts : list TrackState) : list TrackState :=
  foldl (fun ts t => <[t := ended]> ts) ts stream.

(** When a control is on screen. *)
Definition on_screen (s : Session) (c : Control) : Prop :=
  match c with
  | Shutter => appState s = camera
  | Retake => appState s = preview /\ truthy (capturedImage s) = true
  | FilterTile f =>
      appState s = preview /\ truthy (capturedImage s) = true
      /\ f ∈ id <$> filterImages
  | TryAgain => appState s = processing /\ truthy (error s) = true
  | TakeNewPhoto | Download =>
      appState s = processing /\ truthy (error s) = false
      /\ truthy (processedImage s) = true
  end.

(** The [onClick] of a control, as the render of [s] creates it. *)
Definition handler_of (BUCKET_ID : string) (s : Session) (c : Control) : Prog unit :=
  match c with
  | Shutter => takePicture
  | Retake | TakeNewPhoto => retakePicture
  | FilterTile f => applyFilter BUCKET_ID (capturedImage s) f
  | TryAgain => call (SetAppState preview)
  | Download =>
      call (LinkClick (default EmptyString (processedImage s)) "artistic-photo.png")
  end.

#[global] Instance on_screen_dec (s : Session) (c : Control) : Decision (on_screen s c).
Proof. unfold on_screen. destruct c; apply _. Defined.

(** What each control does to the session. *)
Definition step_effect (s : Session) (c : Control) (s' : Session) : Prop :=
  match c with
  | Shutter =>
      s' = s \/ exists url, s' = set_appState preview (set_capturedImage (Some url) s)
  | Retake | TakeNewPhoto =>
      s' = set_appState camera (set_selectedFilter None (set_capturedImage None s))
  | FilterTile f =>
      (exists url,
          s' = set_isUploading false
                 (set_processedImage (Some url)
                    (set_isUploading true
                       (set_error None
                          (set_appState processing
                             (set_selectedFilter (Some f) s))))))
      \/ s' = set_appState preview
                (set_isUploading false
                   (set_error (Some upload_failed_message)
                      (set_isUploading true
                         (set_error None
                            (set_appState processing
                               (set_selectedFilter (Some f) s))))))
  | TryAgain => s' = set_appState preview s
  | Download => s' = s
  end.

(** The reference environment one millisecond later. *)
Definition later_env : Env :=
  {| date_now := date_now reference_env + 1;
     atob_impl := atob_impl reference_env;
     drawImage_impl := drawImage_impl reference_env;
     toDataURL_impl := toDataURL_impl reference_env;
     getPublicUrl_impl := getPublicUrl_impl reference_env;
     getUserMedia_impl := getUserMedia_impl reference_env;
     upload_impl := upload_impl reference_env |}.

(** A world like [world_of s], whose canvas still holds an earlier drawing. *)
Definition world_with_used_canvas (s : Session) : World :=
  set_canvasRef
    (Some {| cv_width := 10; cv_height := 10; cv_context2d := true;
             cv_bitmap := [0; 0; 10; 10] |})
    (world_of s).

(** The mounted component in the camera view, its one-track stream bound to
    the video element and the cleanup of the camera effect registered. *)
Definition camera_running : Machine :=
  {| world := world_of initial_session; mounted := true;
     cleanup := Some stopCamera; pending := []; granted := [[0%nat]] |}.

(** * Properties *)

(** ** Programs and their two readings *)

Lemma run_bind {A B : Type} (E : Env) (p : Prog A) (f : A -> Prog B) (w : World) :
  run E (bind p f) w =
  match run E p w with
  | (inr a, w') => run E (f a) w'
  | (inl e, w') => (inl e, w')
  end.
Proof.
  revert w. induction p as [a | e | X c k IH | a k IH]; intros w; cbn.
  - reflexivity.
  - reflexivity.
  - destruct (perform E c w) as [x w']. apply IH.
  - destruct (settle E a w) as [r w']. apply IH.
Qed.

Lemma run_try_catch {A : Type} (E : Env) (p : Prog A) (h : Exn -> Prog A) (w : World) :
  run E (try_catch p h) w =
  match run E p w with
  | (inr a, w') => (inr a, w')
  | (inl e, w') => run E (h e) w'
  end.
Proof.
  revert w. induction p as [a | e | X c k IH | a k IH]; intros w; cbn.
  - reflexivity.
  - reflexivity.
  - destruct (perform E c w) as [x w']. apply IH.
  - destruct (settle E a w) as [r w']. apply IH.
Qed.

(** Running to the end is running to the first await, letting it settle, and
    running on. *)
Lemma run_through_await {A : Type} (E : Env) (p : Prog A) (w : World) :
  run E p w =
  match run_to_await E p w with
  | (Done a, w') => (inr a, w')
  | (Raised e, w') => (inl e, w')
  | (Awaiting a k, w') => let '(r, w'') := settle E a w' in run E (k r) w''
  end.
Proof.
  revert w. induction p as [a | e | X c k IH | a k IH]; intros w; cbn.
  - reflexivity.
  - reflexivity.
  - destruct (perform E c w) as [x w']. apply IH.
  - reflexivity.
Qed.

(** ** [dataURLtoFile] *)

Lemma get_list_ascii (s : string) (i : nat) :
  String.get i s = list_ascii_of_string s !! i.
Proof.
  revert i. induction s as [| c s IH]; intros [| i]; cbn; auto.
Qed.

Lemma length_list_ascii (s : string) :
  length (list_ascii_of_string s) = String.length s.
Proof. induction s as [| c s IH]; cbn; congruence. Qed.

Lemma N_of_ascii_below_256 (c : ascii) : Z.of_N (N_of_ascii c) mod 256 = Z.of_N (N_of_ascii c).
Proof.
  apply Z.mod_small. pose proof (N_ascii_bounded c). lia.
Qed.

(** The loop invariant of [while (n--)]: the cells from [n] upwards already
    hold the code units, the cells below are untouched. *)
Lemma fill_u8arr_lookup (bstr : string) (n : nat) (u8arr : list Z) (i : nat) :
  (n <= length u8arr)%nat ->
  fill_u8arr bstr n u8arr !! i =
  if decide (i < n)%nat
  then (fun _ => to_uint8 (charCodeAt bstr i)) <$> u8arr !! i
  else u8arr !! i.
Proof.
  revert u8arr. induction n as [| n IH]; intros u8arr Hn; cbn [fill_u8arr].
  - destruct (decide (i < 0)%nat); [lia | reflexivity].
  - rewrite IH by (rewrite length_insert; lia).
    destruct (decide (i < n)%nat) as [Hlt | Hge].
    + rewrite list_lookup_insert_ne by lia.
      destruct (decide (i < S n)%nat); [reflexivity | lia].
    + destruct (decide (i = n)) as [-> | Hne].
      * rewrite list_lookup_insert_eq by lia.
        destruct (decide (n < S n)%nat); [| lia].
        destruct (lookup_lt_is_Some_2 u8arr n ltac:(lia)) as [z Hz].
        rewrite Hz. reflexivity.
      * rewrite list_lookup_insert_ne by lia.
        destruct (decide (i < S n)%nat); [lia | reflexivity].
Qed.

(** The bytes of the file are the code units of the decoded string. *)
Lemma fill_u8arr_bytes (bstr : string) :
  fill_u8arr bstr (String.length bstr) (replicate (String.length bstr) 0)
  = string_bytes bstr.
Proof.
  apply list_eq. intros i.
  rewrite fill_u8arr_lookup by (rewrite length_replicate; lia).
  unfold string_bytes. rewrite list_lookup_fmap, <- get_list_ascii.
  destruct (decide (i < String.length bstr)%nat) as [Hlt | Hge].
  - rewrite lookup_replicate_2 by lia. cbn.
    unfold charCodeAt.
    destruct (String.get i bstr) as [c |] eqn:Hc; cbn.
    + f_equal. apply N_of_ascii_below_256.
    + exfalso. rewrite get_list_ascii in Hc.
      apply lookup_ge_None in Hc. rewrite length_list_ascii in Hc. lia.
  - assert (replicate (String.length bstr) 0 !! i = None) as ->
      by (apply lookup_replicate_None; lia).
    rewrite get_list_ascii.
    symmetry. rewrite fmap_None. apply lookup_ge_None.
    rewrite length_list_ascii. lia.
Qed.

(** ** [applyFilter] *)

Section ApplyFilter.

Variable BUCKET_ID : string.
Variable E : Env.

Lemma run_applyFilter (ci : option string) (fid : Z) (w : World) :
  run E (applyFilter BUCKET_ID ci fid) w =
  match attempt BUCKET_ID E ci fid w with
  | (inr u, w') => (inr u, w')
  | (inl e, w') => run E (applyFilter_catch e) w'
  end.
Proof.
  unfold attempt.
  change (applyFilter BUCKET_ID ci fid)
    with (bind (applyFilter_enter fid)
            (fun _ => try_catch (applyFilter_try BUCKET_ID ci) applyFilter_catch)).
  rewrite run_bind. cbn [applyFilter_enter]. cbn -[applyFilter_try applyFilter_catch].
  apply run_try_catch.
Qed.

(** What the [try] block has done to the session when it stops. *)
Lemma attempt_session (ci : option string) (fid : Z) (w : World) :
  let s1 := set_isUploading true
              (set_error None
                 (set_appState processing
                    (set_selectedFilter (Some fid) (session w)))) in
  match attempt BUCKET_ID E ci fid w with
  | (inl _, w') => session w' = s1
  | (inr _, w') =>
      exists url, session w' =
                  set_isUploading false (set_processedImage (Some url) s1)
  end.
Proof.
  unfold attempt, applyFilter_try, dataURLtoFile, atob. cbn.
  destruct ci as [d |]; cbn; [| reflexivity].
  destruct (atob_impl E _) as [bstr |]; cbn; [| reflexivity].
  destruct (upload_impl E _ _ _ _) as [e | r]; cbn; [reflexivity |].
  destruct (up_error r) as [e |]; cbn; [reflexivity |].
  destruct (getPublicUrl_impl E _ _) as [e | url]; cbn; [reflexivity |].
  exists url. reflexivity.
Qed.

(** The [catch] block cannot throw. *)
Lemma run_applyFilter_catch (e : Exn) (w : World) :
  run E (applyFilter_catch e) w =
  (inr tt,
   with_session
     (fun s => set_appState preview
                 (set_isUploading false
                    (set_error (Some upload_failed_message) s)))
     (log_console ("Error uploading image:", e) w)).
Proof. reflexivity. Qed.

End ApplyFilter.

Section ApplyFilterClaims.

Variable BUCKET_ID : string.
Variable E : Env.

Lemma attempt_raises_iff (ci : option string) (fid : Z) (w : World) (e : Exn) :
  fst (attempt BUCKET_ID E ci fid w) = inl e <-> failure_cause BUCKET_ID E ci fid w e.
Proof.
  unfold failure_cause, attempt, applyFilter_try, dataURLtoFile, atob. cbn.
  destruct ci as [d |]; cbn.
  2:{ split; [intros [= <-]; left; reflexivity
             | intros [[= <-] | (? & ? & ? & ? & [=] & _)]; reflexivity]. }
  destruct (atob_impl E _) as [bstr |]; cbn.
  2:{ split; [intros [= <-]; left; reflexivity
             | intros [[= <-] | (? & ? & ? & ? & [=] & _)]; reflexivity]. }
  split.
  - intros H. right. eexists _, _, _, _. split; [reflexivity |].
    destruct (upload_impl E _ _ _ _) as [e' | r]; cbn in H.
    + left. congruence.
    + right. destruct (up_error r) as [e' |] eqn:Hr; cbn in H.
      * left. exists r. split; congruence.
      * right. exists r.
        destruct (getPublicUrl_impl E _ _); cbn in H; [| discriminate].
        repeat split; congruence.
  - intros [[=] | (b & p & f & o & [= <- <- <- <-] & H)].
    destruct H as [-> | [(r & -> & Hr) | (r & -> & Hr & Hu)]]; cbn.
    + reflexivity.
    + rewrite Hr. reflexivity.
    + rewrite Hr. cbn. rewrite Hu. reflexivity.
Qed.

(** A failed run, in full: the session and the console it leaves. *)
Lemma applyFilter_failed_run (ci : option string) (fid : Z) (w : World) (e : Exn) :
  fst (attempt BUCKET_ID E ci fid w) = inl e ->
  session (snd (run E (applyFilter BUCKET_ID ci fid) w))
  = set_appState preview
      (set_isUploading false
         (set_error (Some upload_failed_message)
            (set_isUploading true
               (set_error None
                  (set_appState processing
                     (set_selectedFilter (Some fid) (session w)))))))
  /\ console (snd (run E (applyFilter BUCKET_ID ci fid) w))
     = (console w ++ [("Error uploading image:", e)])%list.
Proof.
  rewrite run_applyFilter.
  unfold attempt, applyFilter_try, dataURLtoFile, atob. cbn.
  destruct ci as [d |]; cbn; [| intros [= <-]; split; reflexivity].
  destruct (atob_impl E _) as [bstr |]; cbn; [| intros [= <-]; split; reflexivity].
  destruct (upload_impl E _ _ _ _) as [e' | r]; cbn;
    [intros [= <-]; split; reflexivity |].
  destruct (up_error r) as [e' |]; cbn; [intros [= <-]; split; reflexivity |].
  destruct (getPublicUrl_impl E _ _) as [e' | url]; cbn;
    [intros [= <-]; split; reflexivity | discriminate].
Qed.


(** C10.  [applyFilter] never hands an exception to its caller, whatever the
    environment answers and whether or not a picture was captured: the run
    always returns normally.  Whenever its [try] block throws, the exception
    is logged and the run ends with [error] set and [appState = preview];
    with [capturedImage] unset the block does throw (a [TypeError]). *)
Theorem applyFilter_never_throws (ci : option string) (fid : Z) (w : World) :
  fst (run E (applyFilter BUCKET_ID ci fid) w) = inr tt
  /\ (forall e,
        fst (attempt BUCKET_ID E ci fid w) = inl e ->
        error (session (snd (run E (applyFilter BUCKET_ID ci fid) w)))
          = Some upload_failed_message
        /\ appState (session (snd (run E (applyFilter BUCKET_ID ci fid) w)))
           = preview
        /\ console (snd (run E (applyFilter BUCKET_ID ci fid) w))
           = (console w ++ [("Error uploading image:", e)])%list)
  /\ (ci = None -> exists m, fst (attempt BUCKET_ID E ci fid w) = inl (TypeError m)).
Proof.
  split; [| split].
  - rewrite run_applyFilter.
    destruct (attempt BUCKET_ID E ci fid w) as [[e | []] w1].
    + rewrite run_applyFilter_catch. reflexivity.
    + reflexivity.
  - intros e Hfail.
    destruct (applyFilter_failed_run ci fid w e Hfail) as [-> ->].
    cbn. auto.
  - intros ->. eexists. reflexivity.
Qed.

(** The promise [applyFilter] returns never rejects either: its synchronous
    part does not throw, and the part after the await returns normally
    whatever the upload settles to and whatever has happened meanwhile. *)
Lemma applyFilter_promise_never_rejects (ci : option string) (fid : Z) (w : World) :
  match run_to_await E (applyFilter BUCKET_ID ci fid) w with
  | (Done _, _) => True
  | (Raised _, _) => False
  | (Awaiting a k, _) => forall E' r w', fst (run E' (k r) w') = inr tt
  end.
Proof.
  unfold applyFilter, applyFilter_try, dataURLtoFile, atob. cbn.
  destruct ci as [d |]; cbn; [| exact I].
  destruct (atob_impl E _) as [bstr |]; cbn; [| exact I].
  intros E' [e | r] w'; cbn; [reflexivity |].
  destruct (up_error r) as [e |]; cbn; [reflexivity |].
  destruct (getPublicUrl_impl E' _ _) as [e | url]; reflexivity.
Qed.

(** [applyFilter] up to its await: either it is already over (decoding
    failed and was caught), or it is parked on the upload of the decoded
    capture, with the session as the three leading setters and
    [setIsUploading(true)] left it. *)
Lemma applyFilter_to_await (ci : option string) (fid : Z) (w : World) :
  (exists w1, run_to_await E (applyFilter BUCKET_ID ci fid) w = (Done tt, w1))
  \/ exists d bstr k,
      ci = Some d
      /\ atob_impl E (to_DOMString (split_on ","%char d !! 1%nat)) = Some bstr
      /\ run_to_await E (applyFilter BUCKET_ID ci fid) w
         = (Awaiting
              (AwUpload BUCKET_ID
                 ("originals/" +:+ "photo-" +:+ number_to_string (date_now E)
                  +:+ ".png")
                 {| file_bits := string_bytes bstr;
                    file_name := "photo-" +:+ number_to_string (date_now E)
                                 +:+ ".png";
                    file_type := (split_on ","%char d !! 0%nat) ≫= match_mime |}
                 {| contentType := "image/png"; cacheControl := "3600" |}) k,
            with_session
              (fun s => set_isUploading true
                          (set_error None
                             (set_appState processing
                                (set_selectedFilter (Some fid) s)))) w).
Proof.
  unfold applyFilter, applyFilter_try, dataURLtoFile, atob. cbn.
  destruct ci as [d |]; cbn; [| left; eexists; reflexivity].
  destruct (atob_impl E _) as [bstr |] eqn:Hatob; cbn;
    [| left; eexists; reflexivity].
  right. exists d, bstr. eexists. split; [reflexivity |]. split; [exact Hatob |].
  rewrite fill_u8arr_bytes. reflexivity.
Qed.



(** C7.  Two runs of [applyFilter] that differ only in the chosen filter
    make the same requests to the storage client (same bucket, path, body
    and options), leave the same [processedImage], and end in worlds that
    differ at most in [selectedFilter]; parked at the upload they wait for
    the same request. *)
Theorem applyFilter_ignores_filter (ci : option string) (f1 f2 : Z) (w : World) :
  storage_log (snd (run E (applyFilter BUCKET_ID ci f1) w))
    = storage_log (snd (run E (applyFilter BUCKET_ID ci f2) w))
  /\ processedImage (session (snd (run E (applyFilter BUCKET_ID ci f1) w)))
     = processedImage (session (snd (run E (applyFilter BUCKET_ID ci f2) w)))
  /\ with_session (set_selectedFilter None)
       (snd (run E (applyFilter BUCKET_ID ci f1) w))
     = with_session (set_selectedFilter None)
         (snd (run E (applyFilter BUCKET_ID ci f2) w))
  /\ awaited (fst (run_to_await E (applyFilter BUCKET_ID ci f1) w))
     = awaited (fst (run_to_await E (applyFilter BUCKET_ID ci f2) w)).
Proof.
  unfold applyFilter, applyFilter_try, dataURLtoFile, atob. cbn.
  destruct ci as [d |]; cbn; [| repeat split].
  destruct (atob_impl E _) as [bstr |]; cbn; [| repeat split].
  destruct (upload_impl E _ _ _ _) as [e | r]; cbn; [repeat split |].
  destruct (up_error r) as [e |]; cbn; [repeat split |].
  destruct (getPublicUrl_impl E _ _) as [e | url]; cbn; repeat split.
Qed.

End ApplyFilterClaims.

(** ** [takePicture] and [startCamera] *)


(** C9.  When [getUserMedia] rejects, [startCamera] catches the rejection
    and writes one line to the console; it returns normally, the session is
    untouched (still [camera], [error] still unset), the video element gets
    no stream, and the camera view shows no message. *)
Theorem startCamera_rejection_only_logged (E : Env) (w : World) (e : Exn) :
  getUserMedia_impl E {| facingMode := "user" |} = inl e ->
  appState (session w) = camera ->
  error (session w) = None ->
  fst (run E startCamera w) = inr tt
  /\ snd (run E startCamera w) = log_console ("Error accessing camera:", e) w
  /\ session (snd (run E startCamera w)) = session w
  /\ appState (session (snd (run E startCamera w))) = camera
  /\ error (session (snd (run E startCamera w))) = None
  /\ videoRef (snd (run E startCamera w)) = videoRef w
  /\ user_message (render (session (snd (run E startCamera w)))) = None.
Proof.
  intros Hreject Hstate Herror.
  unfold startCamera. cbn. rewrite Hreject. cbn.
  unfold render. rewrite Hstate. repeat split; assumption.
Qed.

(** The same when the rejection arrives later: [startCamera] parks on
    [getUserMedia] without touching the world, and resumed with a rejection,
    in whatever world there is by then, it only adds the console line. *)
Lemma startCamera_rejection_later (E : Env) (w : World) :
  exists k,
    run_to_await E startCamera w
    = (Awaiting (AwGetUserMedia {| facingMode := "user" |}) k, w)
    /\ forall E' e w',
         run E' (k (inl e)) w'
         = (inr tt, log_console ("Error accessing camera:", e) w').
Proof.
  unfold startCamera. cbn. eexists. split; [reflexivity |].
  intros E' e w'. reflexivity.
Qed.

(** ** The session across user actions *)

Section SessionClaims.

Variable BUCKET_ID : string.

(** The handlers the JSX attaches, control by control. *)
Lemma onClick_cases (s : Session) (c : Control) (h : Prog unit) :
  onClick BUCKET_ID s c = Some h ->
  (c = Shutter /\ h = takePicture /\ appState s = camera)
  \/ ((c = Retake \/ c = TakeNewPhoto) /\ h = retakePicture)
  \/ (exists fid, c = FilterTile fid /\ appState s = preview
                  /\ h = applyFilter BUCKET_ID (capturedImage s) fid)
  \/ (c = TryAgain /\ h = call (SetAppState preview))
  \/ (exists url, c = Download /\ h = call (LinkClick url "artistic-photo.png")).
Proof.
  unfold onClick, controls, render.
  destruct (appState s) eqn:Hstate.
  - destruct c; cbn; intros [=]; subst. left. auto.
  - destruct (truthy (capturedImage s)); [| discriminate].
    destruct c; cbn; try discriminate.
    + intros [= <-]. right. left. auto.
    + repeat case_decide; intros [=]; subst;
        right; right; left; eexists; repeat split; congruence.
  - destruct (truthy (error s)).
    + destruct c; cbn; intros [=]; subst. do 3 right. left. auto.
    + destruct (negb (truthy (processedImage s))); [discriminate |].
      destruct c; cbn; intros [=]; subst.
      * right. left. auto.
      * do 4 right. eexists. auto.
Qed.

(** C5.  From every session and in every world, [retakePicture] returns
    normally and leaves [capturedImage] and [selectedFilter] unset and
    [appState = camera]; nothing else of the world changes.  Both buttons
    that retake (Retake in the preview, Take New Photo next to a result) do
    exactly this to the session. *)
Theorem retakePicture_resets (E : Env) (w : World) :
  (fst (run E retakePicture w) = inr tt
   /\ capturedImage (session (snd (run E retakePicture w))) = None
   /\ selectedFilter (session (snd (run E retakePicture w))) = None
   /\ appState (session (snd (run E retakePicture w))) = camera
   /\ snd (run E retakePicture w)
      = with_session
          (fun s => set_appState camera
                      (set_selectedFilter None (set_capturedImage None s))) w)
  /\ forall s c s',
       session_step BUCKET_ID s c s' ->
       c = Retake \/ c = TakeNewPhoto ->
       s' = set_appState camera (set_selectedFilter None (set_capturedImage None s)).
Proof.
  split; [repeat split |].
  intros s c s' [E' w' c' h Hw Hclick] Hc.
  apply onClick_cases in Hclick
    as [(-> & _) | [(_ & ->) | [(fid & -> & _) | [(-> & _) | (url & -> & _)]]]];
    try (destruct Hc; discriminate).
  subst s. reflexivity.
Qed.



End SessionClaims.

(** ** Concrete runs *)

Lemma reach_click (B : string) (tr : list Control) (s : Session)
    (E : Env) (c : Control) (h : Prog unit) :
  reachable B tr s ->
  onClick B s c = Some h ->
  reachable B (tr ++ [c]) (session (snd (run E h (world_of s)))).
Proof.
  intros Hreach Hclick. eapply reach_step; [exact Hreach |].
  apply (step_click B s E (world_of s) c h); [reflexivity | exact Hclick].
Qed.

Lemma first_preview_reachable : reachable "photos" [Shutter] first_preview.
Proof.
  exact (reach_click "photos" [] initial_session reference_env Shutter takePicture
           (reach_init "photos") eq_refl).
Qed.

Lemma first_result_reachable :
  reachable "photos" [Shutter; FilterTile 1] first_result.
Proof.
  exact (reach_click "photos" [Shutter] first_preview reference_env (FilterTile 1)
           (applyFilter "photos" (Some png_signature_url) 1)
           first_preview_reachable eq_refl).
Qed.

Lemma back_in_camera_reachable :
  reachable "photos" [Shutter; FilterTile 1; TakeNewPhoto] back_in_camera.
Proof.
  exact (reach_click "photos" [Shutter; FilterTile 1] first_result reference_env
           TakeNewPhoto retakePicture first_result_reachable eq_refl).
Qed.









Lemma applyFilter_never_throws_witness :
  fst (run reference_env (applyFilter "photos" None 3) (world_of first_preview))
    = inr tt
  /\ error (session (snd (run reference_env (applyFilter "photos" None 3)
                            (world_of first_preview))))
     = Some upload_failed_message
  /\ appState (session (snd (run reference_env (applyFilter "photos" None 3)
                               (world_of first_preview)))) = preview.
Proof.
  destruct (applyFilter_never_throws "photos" reference_env None 3
              (world_of first_preview)) as (Hreturns & Hcaught & Hnull).
  destruct (Hcaught _ eq_refl) as (Herror & Hstate & _).
  split; [exact Hreturns | split; [exact Herror | exact Hstate]].
Defined.


Lemma startCamera_rejection_only_logged_witness :
  snd (run denied_camera_env startCamera (world_of initial_session))
    = log_console ("Error accessing camera:", MediaError "NotAllowedError")
        (world_of initial_session)
  /\ session (snd (run denied_camera_env startCamera (world_of initial_session)))
     = initial_session.
Proof.
  destruct (startCamera_rejection_only_logged denied_camera_env
              (world_of initial_session) (MediaError "NotAllowedError")
              eq_refl eq_refl eq_refl) as (_ & Hworld & Hsession & _).
  split; [exact Hworld | exact Hsession].
Defined.

(** ** The camera stream over the life of the component *)

(** When the stream is bound before the shutter is pressed and the cleanup
    still sees the video element, leaving the camera view stops its track. *)
Lemma cleanup_stops_bound_stream :
  observe <$> run_schedule "photos" reference_env false
                [Mount; CameraGranted 1; VideoMetadata 640 480; Click Shutter]
                initial_machine
  = Some {| obs_mounted := true; obs_appState := preview;
            obs_videoRef := None; obs_cleanup := false; obs_pending := 0;
            obs_granted := [[0%nat]]; obs_tracks := [ended];
            obs_active := [] |}.
Proof. vm_compute. reflexivity. Qed.

(** When the video element is detached before the cleanup runs, the cleanup
    finds no element and stops nothing. *)
Lemma cleanup_misses_detached_element :
  observe <$> run_schedule "photos" reference_env true
                [Mount; CameraGranted 1; VideoMetadata 640 480; Click Shutter]
                initial_machine
  = Some {| obs_mounted := true; obs_appState := preview;
            obs_videoRef := None; obs_cleanup := false; obs_pending := 0;
            obs_granted := [[0%nat]]; obs_tracks := [live];
            obs_active := [[0%nat]] |}.
Proof. vm_compute. reflexivity. Qed.

(** C8: the run on which the code departs from the claim.  The shutter is
    pressed while [getUserMedia] is still pending, and the stream is granted
    afterwards.  Whichever way the commit orders detaching and cleanup, the
    component has left the camera view, no cleanup is registered, no element
    holds the stream, and its track is live; after Retake and a second grant
    two streams are active at once. *)
Theorem stream_granted_late_is_never_stopped (detach_first : bool) :
  observe <$> run_schedule "photos" reference_env detach_first
                [Mount; Click Shutter; CameraGranted 1] initial_machine
  = Some {| obs_mounted := true; obs_appState := preview;
            obs_videoRef := None; obs_cleanup := false; obs_pending := 0;
            obs_granted := [[0%nat]]; obs_tracks := [live];
            obs_active := [[0%nat]] |}
  /\ observe <$> run_schedule "photos" reference_env detach_first
                   [Mount; Click Shutter; CameraGranted 1;
                    Click Retake; CameraGranted 1] initial_machine
     = Some {| obs_mounted := true; obs_appState := camera;
               obs_videoRef := Some {| videoWidth := 0; videoHeight := 0;
                                       srcObject := Some [1%nat] |};
               obs_cleanup := true; obs_pending := 0;
               obs_granted := [[0%nat]; [1%nat]]; obs_tracks := [live; live];
               obs_active := [[0%nat]; [1%nat]] |}.
Proof. destruct detach_first; split; vm_compute; reflexivity. Qed.

(** Teardown before the grant: the same leak without any click; and with a
    remount (mount, unmount, mount) two streams are active. *)
Lemma stream_granted_after_unmount_is_never_stopped (detach_first : bool) :
  observe <$> run_schedule "photos" reference_env detach_first
                [Mount; Unmount; CameraGranted 1] initial_machine
  = Some {| obs_mounted := false; obs_appState := camera;
            obs_videoRef := None; obs_cleanup := false; obs_pending := 0;
            obs_granted := [[0%nat]]; obs_tracks := [live];
            obs_active := [[0%nat]] |}
  /\ observe <$> run_schedule "photos" reference_env detach_first
                   [Mount; Unmount; Mount; CameraGranted 1; CameraGranted 1]
                   initial_machine
     = Some {| obs_mounted := true; obs_appState := camera;
               obs_videoRef := Some {| videoWidth := 0; videoHeight := 0;
                                       srcObject := Some [1%nat] |};
               obs_cleanup := true; obs_pending := 0;
               obs_granted := [[0%nat]; [1%nat]]; obs_tracks := [live; live];
               obs_active := [[0%nat]; [1%nat]] |}.
Proof. destruct detach_first; split; vm_compute; reflexivity. Qed.

(** * Further properties *)

(** ** Strings *)

Lemma app_empty_l (s : string) : EmptyString +:+ s = s.
Proof. reflexivity. Qed.

Lemma app_String_l (c : ascii) (a b : string) :
  String c a +:+ b = String c (a +:+ b).
Proof. reflexivity. Qed.

Ltac string_cbn :=
  rewrite ?app_empty_l, ?app_String_l; cbn -[Ascii.eqb];
  rewrite ?app_empty_l, ?app_String_l.

Lemma split_on_nonempty (sep : ascii) (s : string) : split_on sep s <> [].
Proof.
  induction s as [| c s IH]; cbn -[Ascii.eqb]; [discriminate |].
  destruct (Ascii.eqb c sep); [discriminate |].
  destruct (split_on sep s); [contradiction | discriminate].
Qed.

Lemma split_on_no_sep (sep : ascii) (s : string) :
  has_char sep s = false -> split_on sep s = [s].
Proof.
  induction s as [| c s IH]; cbn -[Ascii.eqb]; [reflexivity |].
  destruct (Ascii.eqb c sep); cbn -[Ascii.eqb]; [discriminate |].
  intros H. rewrite (IH H). reflexivity.
Qed.

Lemma split_on_first (sep : ascii) (head rest : string) :
  has_char sep head = false ->
  split_on sep (head +:+ String sep rest) = head :: split_on sep rest.
Proof.
  induction head as [| c head IH]; string_cbn.
  - intros _. rewrite Ascii.eqb_refl. reflexivity.
  - destruct (Ascii.eqb c sep); cbn -[Ascii.eqb]; [discriminate |].
    intros H. rewrite (IH H). reflexivity.
Qed.

Lemma lazy_until_semicolon_sound (s m : string) :
  lazy_until_semicolon s = Some m ->
  has_char ";"%char m = false /\ has_line_terminator m = false
  /\ exists post, s = m +:+ String ";"%char post.
Proof.
  revert m. induction s as [| c s IH]; cbn -[Ascii.eqb]; [discriminate |]. intros m.
  destruct (Ascii.eqb c ";"%char) eqn:Hsemi.
  - intros [= <-]. apply Ascii.eqb_eq in Hsemi as ->.
    repeat split. exists s. reflexivity.
  - unfold is_line_terminator.
    destruct (Ascii.eqb c "010"%char) eqn:Hlf; cbn -[Ascii.eqb]; [discriminate |].
    destruct (Ascii.eqb c "013"%char) eqn:Hcr; cbn -[Ascii.eqb]; [discriminate |].
    destruct (lazy_until_semicolon s) as [m' |]; cbn -[Ascii.eqb]; [| discriminate].
    intros [= <-]. destruct (IH m' eq_refl) as (H1 & H2 & post & ->).
    unfold has_line_terminator in *. cbn -[Ascii.eqb]. rewrite Hsemi, Hlf, Hcr. cbn -[Ascii.eqb].
    repeat split; auto. exists post. reflexivity.
Qed.

Lemma lazy_until_semicolon_complete (m post : string) :
  has_char ";"%char m = false -> has_line_terminator m = false ->
  lazy_until_semicolon (m +:+ String ";"%char post) = Some m.
Proof.
  unfold has_line_terminator.
  induction m as [| c m IH]; string_cbn; [rewrite Ascii.eqb_refl; reflexivity |].
  unfold is_line_terminator.
  destruct (Ascii.eqb c ";"%char); cbn -[Ascii.eqb]; [discriminate |].
  destruct (Ascii.eqb c "010"%char); cbn -[Ascii.eqb]; [intros _ [=] |].
  destruct (Ascii.eqb c "013"%char); cbn -[Ascii.eqb];
    [intros _ H; destruct (has_char "010"%char m); discriminate |].
  intros H1 H2. rewrite (IH H1 H2). reflexivity.
Qed.

(** X1.  What the pattern [/:(.*?);/] captures holds no semicolon and no
    line terminator, and the string really contains it between a colon and
    a semicolon. *)
Theorem match_mime_sound (s m : string) :
  match_mime s = Some m ->
  has_char ";"%char m = false
  /\ has_line_terminator m = false
  /\ exists pre post, s = pre +:+ String ":"%char (m +:+ String ";"%char post).
Proof.
  induction s as [| c s IH]; cbn -[Ascii.eqb]; [discriminate |].
  destruct (Ascii.eqb c ":"%char) eqn:Hcolon.
  - destruct (lazy_until_semicolon s) as [m' |] eqn:Hlazy.
    + intros [= <-]. apply Ascii.eqb_eq in Hcolon as ->.
      destruct (lazy_until_semicolon_sound s m' Hlazy) as (H1 & H2 & post & ->).
      repeat split; auto. exists EmptyString, post. reflexivity.
    + intros H. destruct (IH H) as (H1 & H2 & pre & post & ->).
      repeat split; auto. exists (String c pre), post. reflexivity.
  - intros H. destruct (IH H) as (H1 & H2 & pre & post & ->).
    repeat split; auto. exists (String c pre), post. reflexivity.
Qed.

(** X2.  In a string whose first colon is followed by text without a
    semicolon or line terminator and then a semicolon, the pattern captures
    exactly that text, whatever comes before the colon and after the
    semicolon. *)
Theorem match_mime_first_colon (pre m post : string) :
  has_char ":"%char pre = false ->
  has_char ";"%char m = false ->
  has_line_terminator m = false ->
  match_mime (pre +:+ String ":"%char (m +:+ String ";"%char post)) = Some m.
Proof.
  intros Hpre Hm Hlt. induction pre as [| c pre IH]; string_cbn.
  - rewrite Ascii.eqb_refl. rewrite lazy_until_semicolon_complete by assumption. reflexivity.
  - cbn -[Ascii.eqb] in Hpre. destruct (Ascii.eqb c ":"%char); cbn -[Ascii.eqb] in Hpre; [discriminate |].
    apply IH. exact Hpre.
Qed.

Lemma lazy_until_semicolon_none (s : string) :
  has_char ";"%char s = false -> lazy_until_semicolon s = None.
Proof.
  induction s as [| c s IH]; cbn -[Ascii.eqb]; [reflexivity |].
  destruct (Ascii.eqb c ";"%char); cbn -[Ascii.eqb]; [discriminate |].
  intros H. rewrite (IH H). destruct (is_line_terminator c); reflexivity.
Qed.

(** X3.  A string without a colon or without a semicolon gives no match, so
    the file gets no type. *)
Theorem match_mime_none (s : string) :
  has_char ":"%char s = false \/ has_char ";"%char s = false ->
  match_mime s = None.
Proof.
  induction s as [| c s IH]; cbn -[Ascii.eqb]; [reflexivity |].
  intros [H | H].
  - destruct (Ascii.eqb c ":"%char); cbn -[Ascii.eqb] in H; [discriminate |]. apply IH. auto.
  - destruct (Ascii.eqb c ";"%char); cbn -[Ascii.eqb] in H; [discriminate |].
    rewrite lazy_until_semicolon_none by exact H.
    rewrite IH by auto. destruct (Ascii.eqb c ":"%char); reflexivity.
Qed.

(** ** More on [dataURLtoFile] *)

Lemma string_bytes_in_range (s : string) :
  Forall (fun b => 0 <= b < 256) (string_bytes s).
Proof.
  unfold string_bytes. apply Forall_fmap, Forall_forall. intros c _. cbn.
  pose proof (N_ascii_bounded c). lia.
Qed.

Lemma length_string_bytes (s : string) :
  length (string_bytes s) = String.length s.
Proof. unfold string_bytes. rewrite length_fmap. apply length_list_ascii. Qed.

(** X4.  When [dataURLtoFile] returns a file, the world is untouched, the
    file has the given name, its bytes are the code units of what [atob]
    decoded from the text after the first comma (one byte per character,
    each in 0..255), and its type is what the pattern finds in the text
    before that comma. *)
Theorem dataURLtoFile_success (E : Env) (w w' : World)
    (dataurl : option string) (filename : string) (file : File) :
  run E (dataURLtoFile dataurl filename) w = (inr file, w') ->
  w' = w
  /\ file_name file = filename
  /\ Forall (fun b => 0 <= b < 256) (file_bits file)
  /\ exists d bstr,
       dataurl = Some d
       /\ atob_impl E (to_DOMString (split_on ","%char d !! 1%nat)) = Some bstr
       /\ file_bits file = string_bytes bstr
       /\ length (file_bits file) = String.length bstr
       /\ file_type file = (split_on ","%char d !! 0%nat) ≫= match_mime.
Proof.
  unfold dataURLtoFile, atob. destruct dataurl as [d |]; cbn; [| discriminate].
  destruct (atob_impl E _) as [bstr |] eqn:Hatob; cbn; [| discriminate].
  rewrite fill_u8arr_bytes. intros [= <- <-]. cbn.
  repeat split; [apply string_bytes_in_range |].
  exists d, bstr. repeat split; auto using length_string_bytes.
Qed.

(** X5.  For a data URL [header,payload] with no further comma,
    [dataURLtoFile] decodes the payload and takes the type from the header. *)
Theorem dataURLtoFile_header_payload (E : Env) (w : World)
    (header payload bstr filename : string) :
  has_char ","%char header = false ->
  has_char ","%char payload = false ->
  atob_impl E payload = Some bstr ->
  run E (dataURLtoFile (Some (header +:+ String ","%char payload)) filename) w
  = (inr {| file_bits := string_bytes bstr; file_name := filename;
            file_type := match_mime header |}, w).
Proof.
  intros Hh Hp Hatob. unfold dataURLtoFile, atob.
  rewrite (split_on_first _ _ _ Hh), (split_on_no_sep _ _ Hp). cbn.
  rewrite Hatob. cbn. rewrite fill_u8arr_bytes. reflexivity.
Qed.

(** X6.  How [dataURLtoFile] fails: on [null] with a [TypeError]; when
    [atob] rejects its argument with its [InvalidCharacterError]; on a
    string without a comma [atob] is handed the text of [undefined], which a
    conforming [atob] rejects.  A failure never changes the world. *)
Theorem dataURLtoFile_failure (E : Env) (w : World) (filename : string) :
  (exists m, run E (dataURLtoFile None filename) w = (inl (TypeError m), w))
  /\ (forall d,
        atob_impl E (to_DOMString (split_on ","%char d !! 1%nat)) = None ->
        run E (dataURLtoFile (Some d) filename) w = (inl InvalidCharacterError, w))
  /\ (forall d,
        has_char ","%char d = false ->
        atob_impl E "undefined" = None ->
        run E (dataURLtoFile (Some d) filename) w = (inl InvalidCharacterError, w))
  /\ (forall dataurl e w',
        run E (dataURLtoFile dataurl filename) w = (inl e, w') -> w' = w).
Proof.
  unfold dataURLtoFile, atob. split; [eexists; reflexivity |].
  split; [| split].
  - intros d Hatob. cbn. rewrite Hatob. reflexivity.
  - intros d Hd Hatob. rewrite (split_on_no_sep _ _ Hd). cbn.
    rewrite Hatob. reflexivity.
  - intros [d |] e w'; cbn; [| intros [= _ <-]; reflexivity].
    destruct (atob_impl E _); cbn; [discriminate | intros [= _ <-]; reflexivity].
Qed.

(** ** The camera effect: [startCamera] and its cleanup *)

Lemma run_forEach_stop (E : Env) (stream : MediaStream) (w : World) :
  run E (forEach stream (fun track => call (TrackStop track))) w
  = (inr tt, with_tracks (stop_all stream) w).
Proof.
  revert w. induction stream as [| t stream IH]; intros w.
  - destruct w. reflexivity.
  - cbn -[forEach]. change (forEach (t :: stream) (fun track => call (TrackStop track)))
      with (bind (call (TrackStop t))
              (fun _ => forEach stream (fun track => call (TrackStop track)))).
    rewrite run_bind. cbn -[forEach]. rewrite IH. destruct w. reflexivity.
Qed.

Lemma length_stop_all (stream : MediaStream) (ts : list TrackState) :
  length (stop_all stream ts) = length ts.
Proof.
  revert ts. induction stream as [| t stream IH]; intros ts; cbn; [reflexivity |].
  unfold stop_all in IH. rewrite IH. apply length_insert.
Qed.

Ltac decide_membership :=
  repeat case_decide; try reflexivity; exfalso;
  repeat match goal with
         | H : _ ∈ _ :: _ |- _ => apply elem_of_cons in H as [H | H]
         | H : ?x ∉ _ :: _ |- _ =>
             apply H; apply elem_of_cons; first [left; reflexivity | right; assumption]
         end;
  try congruence; try contradiction.

Lemma stop_all_lookup (stream : MediaStream) (ts : list TrackState) (t : TrackId) :
  stop_all stream ts !! t
  = if decide (t ∈ stream) then (fun _ => ended) <$> ts !! t else ts !! t.
Proof.
  revert ts. induction stream as [| a stream IH]; intros ts; cbn.
  - destruct (decide (t ∈ [])) as [Hin | _]; [| reflexivity].
    apply elem_of_nil in Hin. contradiction.
  - unfold stop_all in IH. rewrite IH.
    destruct (decide (t = a)) as [-> | Hne].
    + destruct (ts !! a) as [x |] eqn:Hx.
      * rewrite list_lookup_insert_eq by (eapply lookup_lt_Some; eauto).
        decide_membership.
      * rewrite list_insert_ge by (apply lookup_ge_None; exact Hx).
        rewrite Hx. repeat case_decide; reflexivity.
    + rewrite list_lookup_insert_ne by congruence.
      decide_membership.
Qed.

(** X7.  The cleanup of the camera effect returns normally, leaves the
    session and the video element as they are (the stream stays in
    [srcObject]), stops every track of the stream bound to the video element
    and touches no other track; without an element or a bound stream it
    does nothing. *)
Theorem stopCamera_stops_bound_stream (E : Env) (w : World) :
  fst (run E stopCamera w) = inr tt
  /\ session (snd (run E stopCamera w)) = session w
  /\ videoRef (snd (run E stopCamera w)) = videoRef w
  /\ length (tracks (snd (run E stopCamera w))) = length (tracks w)
  /\ (forall video stream t,
        videoRef w = Some video -> srcObject video = Some stream ->
        (t ∈ stream -> t < length (tracks w) ->
         tracks (snd (run E stopCamera w)) !! t = Some ended)%nat
        /\ (t ∉ stream ->
            tracks (snd (run E stopCamera w)) !! t = tracks w !! t))
  /\ (videoRef w ≫= srcObject = None -> snd (run E stopCamera w) = w).
Proof.
  unfold stopCamera.
  change (run E (video ← call VideoRefCurrent;
                 match video ≫= srcObject with
                 | Some stream => forEach stream (fun track => call (TrackStop track))
                 | None => Ret tt
                 end) w)
    with (run E (match videoRef w ≫= srcObject with
                 | Some stream => forEach stream (fun track => call (TrackStop track))
                 | None => Ret tt
                 end) w).
  destruct (videoRef w) as [v |] eqn:Hv; cbn -[forEach];
    [destruct (srcObject v) as [bound |] eqn:Hs; cbn -[forEach] |].
  - rewrite run_forEach_stop. cbn.
    split; [reflexivity |]. split; [reflexivity |]. split; [exact Hv |].
    split; [apply length_stop_all |]. split; [| discriminate].
    intros video stream t [= <-] Hsrc. rewrite Hs in Hsrc. injection Hsrc as <-.
    rewrite stop_all_lookup. unfold TrackId, MediaStream in *. split.
    + intros Hin Hlt. case_decide; [| contradiction].
      destruct (tracks w !! t) eqn:Hx; [reflexivity |].
      apply lookup_ge_None in Hx. lia.
    + intros Hnin. case_decide; [contradiction | reflexivity].
  - split; [reflexivity |]. split; [reflexivity |]. split; [exact Hv |].
    split; [reflexivity |]. split; [| reflexivity].
    intros video stream t [= <-] Hsrc. congruence.
  - split; [reflexivity |]. split; [reflexivity |]. split; [exact Hv |].
    split; [reflexivity |]. split; [| reflexivity].
    intros video stream t [=].
Qed.

Lemma stop_all_fresh (ts : list TrackState) (n : nat) :
  stop_all (seq (length ts) n) (ts ++ replicate n live)%list
  = (ts ++ replicate n ended)%list.
Proof.
  apply list_eq. intros i. rewrite stop_all_lookup.
  destruct (decide (i < length ts)%nat) as [Hlow | Hhigh].
  - rewrite !lookup_app_l by exact Hlow.
    case_decide as Hin; [| reflexivity].
    apply elem_of_seq in Hin. lia.
  - rewrite !lookup_app_r by lia.
    destruct (decide (i - length ts < n)%nat) as [Hmid | Hout].
    + rewrite !lookup_replicate_2 by exact Hmid.
      case_decide as Hin; [reflexivity |].
      exfalso. apply Hin, elem_of_seq. lia.
    + assert (replicate n live !! (i - length ts)%nat = None) as ->
        by (apply lookup_replicate_None; lia).
      assert (replicate n ended !! (i - length ts)%nat = None) as ->
        by (apply lookup_replicate_None; lia).
      case_decide; reflexivity.
Qed.

Lemma run_startCamera_granted (E : Env) (w : World) (n : nat) :
  getUserMedia_impl E {| facingMode := "user" |} = inr n ->
  run E startCamera w
  = (inr tt,
     with_video (video_set_srcObject (seq (length (tracks w)) n))
       (with_tracks (fun ts => ts ++ replicate n live)%list w)).
Proof.
  intros Hgrant. unfold startCamera. cbn. rewrite Hgrant. cbn.
  destruct w as [s v c ts co sl dl]. cbn. destruct v; reflexivity.
Qed.

(** X8.  A granted [startCamera] adds the tracks of the new stream, live,
    and binds the stream if the video element exists; it never touches the
    session.  Followed by the cleanup, exactly the new tracks are stopped
    when the element existed, and none when it did not. *)
Theorem startCamera_then_stopCamera (E : Env) (w : World) (n : nat) :
  getUserMedia_impl E {| facingMode := "user" |} = inr n ->
  fst (run E startCamera w) = inr tt
  /\ session (snd (run E startCamera w)) = session w
  /\ tracks (snd (run E startCamera w)) = (tracks w ++ replicate n live)%list
  /\ videoRef (snd (run E startCamera w))
     = video_set_srcObject (seq (length (tracks w)) n) <$> videoRef w
  /\ (is_Some (videoRef w) ->
      tracks (snd (run E stopCamera (snd (run E startCamera w))))
      = (tracks w ++ replicate n ended)%list)
  /\ (videoRef w = None ->
      tracks (snd (run E stopCamera (snd (run E startCamera w))))
      = (tracks w ++ replicate n live)%list).
Proof.
  intros Hgrant. rewrite (run_startCamera_granted E w n Hgrant).
  destruct w as [s v c ts co sl dl]. cbn.
  repeat split.
  - intros [video ->]. unfold stopCamera. cbn -[forEach].
    rewrite run_forEach_stop. cbn. apply stop_all_fresh.
  - intros ->. reflexivity.
Qed.

(** X9.  When [startCamera] runs twice on the same video element, the
    second stream replaces the first in [srcObject], and the cleanup stops
    the second stream only: the tracks of the first stay live. *)
Theorem startCamera_twice_leaks_first_stream
    (E1 E2 E3 : Env) (w : World) (n1 n2 : nat) :
  is_Some (videoRef w) ->
  getUserMedia_impl E1 {| facingMode := "user" |} = inr n1 ->
  getUserMedia_impl E2 {| facingMode := "user" |} = inr n2 ->
  videoRef (snd (run E2 startCamera (snd (run E1 startCamera w))))
  = video_set_srcObject (seq (length (tracks w) + n1) n2) <$> videoRef w
  /\ tracks (snd (run E3 stopCamera
                    (snd (run E2 startCamera (snd (run E1 startCamera w))))))
     = (tracks w ++ replicate n1 live ++ replicate n2 ended)%list.
Proof.
  intros [video Hvideo] H1 H2.
  rewrite (run_startCamera_granted E1 w n1 H1).
  rewrite (run_startCamera_granted E2 _ n2 H2).
  destruct w as [s v c ts co sl dl]. cbn in Hvideo. subst v. split.
  - cbn. rewrite length_app, length_replicate. reflexivity.
  - unfold stopCamera. cbn -[forEach]. rewrite run_forEach_stop. cbn.
    rewrite app_assoc. apply stop_all_fresh.
Qed.

(** ** More on [applyFilter] *)

Lemma list_ascii_of_app (a b : string) :
  list_ascii_of_string (a +:+ b)
  = (list_ascii_of_string a ++ list_ascii_of_string b)%list.
Proof.
  induction a as [| c a IH]; [reflexivity |].
  rewrite app_String_l. cbn. rewrite IH. reflexivity.
Qed.

Lemma string_app_inj_r (a b suffix : string) :
  a +:+ suffix = b +:+ suffix -> a = b.
Proof.
  intros H. apply (f_equal list_ascii_of_string) in H.
  rewrite !list_ascii_of_app in H.
  apply app_inj_2 in H as [H _]; [| reflexivity].
  rewrite <- (string_of_list_ascii_of_string a),
          <- (string_of_list_ascii_of_string b), H.
  reflexivity.
Qed.

Lemma number_to_string_inj (a b : Z) :
  number_to_string a = number_to_string b -> a = b.
Proof.
  unfold number_to_string. intros H.
  assert (Hnz : forall z, Z.to_int z <> Decimal.Pos Decimal.Nil
                          /\ Z.to_int z <> Decimal.Neg Decimal.Nil).
  { intros [| p | p]; cbn; split; try discriminate;
      intros [= Hp]; exact (DecimalPos.Unsigned.to_uint_nonnil p Hp). }
  apply (f_equal NilZero.int_of_string) in H.
  rewrite !NilZero.isi in H by apply Hnz.
  injection H as H. exact (DecimalZ.to_int_inj a b H).
Qed.

Section ApplyFilterMore.

Variable BUCKET_ID : string.


(** X11.  The requests of one run of [applyFilter]: none at all when it
    never reaches its upload; one upload when the upload fails; one upload
    followed by one URL lookup for the same bucket and path when the upload
    is answered without error.  The URL is never looked up after a failed
    upload. *)
Theorem applyFilter_storage_requests (E : Env) (ci : option string) (fid : Z)
    (w : World) :
  (storage_log (snd (run E (applyFilter BUCKET_ID ci fid) w)) = storage_log w
   /\ awaited (fst (run_to_await E (applyFilter BUCKET_ID ci fid) w)) = None)
  \/ exists path body opts,
       awaited (fst (run_to_await E (applyFilter BUCKET_ID ci fid) w))
         = Some (AwUpload BUCKET_ID path body opts)
       /\ ((storage_log (snd (run E (applyFilter BUCKET_ID ci fid) w))
            = (storage_log w ++ [CallUpload BUCKET_ID path body opts])%list
            /\ forall r, upload_impl E BUCKET_ID path body opts = inr r ->
                         up_error r <> None)
           \/ (storage_log (snd (run E (applyFilter BUCKET_ID ci fid) w))
               = (storage_log w ++ [CallUpload BUCKET_ID path body opts;
                                    CallGetPublicUrl BUCKET_ID path])%list
               /\ exists r, upload_impl E BUCKET_ID path body opts = inr r
                            /\ up_error r = None)).
Proof.
  unfold applyFilter, applyFilter_try, dataURLtoFile, atob. cbn.
  destruct ci as [d |]; cbn; [| left; split; reflexivity].
  destruct (atob_impl E _) as [bstr |]; cbn; [| left; split; reflexivity].
  right. eexists _, _, _. split; [reflexivity |].
  destruct (upload_impl E _ _ _ _) as [e | r] eqn:Hup; cbn.
  { left. split; [reflexivity | intros r [=]]. }
  destruct (up_error r) as [e |] eqn:Hr; cbn.
  { left. split; [reflexivity | intros r' [= <-]; congruence]. }
  right. split; [| exists r; auto].
  destruct (getPublicUrl_impl E _ _); cbn; rewrite <- app_assoc; reflexivity.
Qed.

(** X12.  The path of the upload is [originals/] followed by the file name,
    and depends on the clock alone: two runs ask for the same path exactly
    when [Date.now()] gave them the same value, whatever the capture, the
    filter and the world.  The options are always the same. *)
Theorem upload_path_follows_clock (E1 E2 : Env) (ci1 ci2 : option string)
    (f1 f2 : Z) (w1 w2 : World)
    (b1 b2 p1 p2 : string) (body1 body2 : File) (o1 o2 : UploadOptions) :
  awaited (fst (run_to_await E1 (applyFilter BUCKET_ID ci1 f1) w1))
    = Some (AwUpload b1 p1 body1 o1) ->
  awaited (fst (run_to_await E2 (applyFilter BUCKET_ID ci2 f2) w2))
    = Some (AwUpload b2 p2 body2 o2) ->
  (p1 = p2 <-> date_now E1 = date_now E2)
  /\ p1 = "originals/" +:+ file_name body1
  /\ o1 = {| contentType := "image/png"; cacheControl := "3600" |}.
Proof.
  intros H1 H2.
  destruct (applyFilter_to_await BUCKET_ID E1 ci1 f1 w1)
    as [[w0 H0] | (d & bstr & k & _ & _ & H0)];
    rewrite H0 in H1; [discriminate |].
  destruct (applyFilter_to_await BUCKET_ID E2 ci2 f2 w2)
    as [[w0' H0'] | (d' & bstr' & k' & _ & _ & H0')];
    rewrite H0' in H2; [discriminate |].
  cbn in H1, H2. injection H1 as <- <- <- <-. injection H2 as <- <- <- <-.
  split; [| split; reflexivity].
  split.
  - intros Heq.
    apply (inj (String.app "originals/")) in Heq.
    apply (inj (String.app "photo-")) in Heq.
    apply string_app_inj_r in Heq.
    apply number_to_string_inj. exact Heq.
  - intros ->. reflexivity.
Qed.

End ApplyFilterMore.

(** ** Controls and reachable sessions *)

Section SessionMore.

Variable BUCKET_ID : string.

Lemma onClick_on_screen (s : Session) (c : Control) :
  (on_screen s c -> onClick BUCKET_ID s c = Some (handler_of BUCKET_ID s c))
  /\ (~ on_screen s c -> onClick BUCKET_ID s c = None).
Proof.
  unfold onClick, controls, render, on_screen, handler_of.
  destruct (appState s) eqn:Hstate.
  - destruct c; cbn -[applyFilter takePicture retakePicture];
      (split; intros Hscreen;
       first [reflexivity | congruence | exfalso; intuition congruence]).
  - destruct (truthy (capturedImage s)) eqn:Hcap;
      destruct c; cbn -[applyFilter takePicture retakePicture];
      repeat case_decide; cbn -[applyFilter takePicture retakePicture];
      rewrite ?elem_of_cons, ?elem_of_nil;
      (split; intros Hscreen;
       first [reflexivity | congruence | exfalso; intuition congruence]).
  - destruct (truthy (error s)) eqn:Herr;
      [| destruct (truthy (processedImage s)) eqn:Hres];
      destruct c; cbn -[applyFilter takePicture retakePicture];
      (split; intros Hscreen;
       first [reflexivity | congruence | exfalso; intuition congruence]).
Qed.

Lemma onClick_Some (s : Session) (c : Control) (h : Prog unit) :
  onClick BUCKET_ID s c = Some h -> on_screen s c /\ h = handler_of BUCKET_ID s c.
Proof.
  intros Hclick. destruct (onClick_on_screen s c) as [Hon Hoff].
  destruct (decide (on_screen s c)) as [Hscreen | Hnot].
  - split; [exact Hscreen |]. rewrite (Hon Hscreen) in Hclick. congruence.
  - rewrite (Hoff Hnot) in Hclick. discriminate.
Qed.

(** X13.  Which controls the JSX offers: the shutter in [camera]; Retake and
    the tiles of the catalog in [preview] with a capture; Try Again in
    [processing] with an error; Take New Photo and Download in [processing]
    with a result and no error.  Each carries the handler of [handler_of]. *)
Theorem control_on_screen_iff (s : Session) (c : Control) (h : Prog unit) :
  onClick BUCKET_ID s c = Some h <-> on_screen s c /\ h = handler_of BUCKET_ID s c.
Proof.
  split; [apply onClick_Some |].
  intros [Hscreen ->]. apply onClick_on_screen. exact Hscreen.
Qed.

Lemma session_step_effect (s : Session) (c : Control) (s' : Session) :
  session_step BUCKET_ID s c s' -> on_screen s c /\ step_effect s c s'.
Proof.
  intros [E w c' h Hw Hclick].
  apply onClick_Some in Hclick as [Hscreen ->]. split; [exact Hscreen |].
  subst s. destruct c'; cbn -[applyFilter].
  - destruct w as [s v cv ts co sl dl]. unfold takePicture. cbn.
    destruct v as [video |], cv as [canvas |]; cbn; auto.
    destruct (cv_context2d canvas); cbn; eauto.
  - reflexivity.
  - rewrite run_applyFilter.
    pose proof (attempt_session BUCKET_ID E (capturedImage (session w)) filterId w)
      as Hs. cbv zeta in Hs.
    destruct (attempt BUCKET_ID E (capturedImage (session w)) filterId w)
      as [[e | u] w1].
    + right. rewrite run_applyFilter_catch. cbn. rewrite Hs. reflexivity.
    + left. destruct Hs as [url Hs]. exists url. exact Hs.
  - reflexivity.
  - reflexivity.
  - reflexivity.
Qed.

Ltac step_cases Hstep :=
  apply session_step_effect in Hstep as [Hscreen Heffect];
  match type of Hscreen with on_screen ?s ?c =>
    destruct s as [a ci sf pi iu er]; destruct c; cbn in Hscreen, Heffect
  end.

(** X14.  In every session reached from the first render a capture is held
    exactly when the view is not the camera, and no filter is selected in
    the camera view.  So pressing the shutter and then Retake leads back to
    the session one started from. *)
Theorem reachable_capture_iff_left_camera (tr : list Control) (s : Session) :
  reachable BUCKET_ID tr s ->
  (appState s = camera <-> capturedImage s = None)
  /\ (appState s = camera -> selectedFilter s = None)
  /\ forall s1 s2,
       session_step BUCKET_ID s Shutter s1 ->
       session_step BUCKET_ID s1 Retake s2 ->
       s2 = s.
Proof.
  intros Hreach.
  assert (Hinv : (appState s = camera <-> capturedImage s = None)
                 /\ (appState s = camera -> selectedFilter s = None)).
  { induction Hreach as [| tr s c s' Hreach IH Hstep]; [cbn; tauto |].
    destruct IH as [IH1 IH2]. step_cases Hstep; cbn in IH1, IH2.
    - destruct Heffect as [-> | [url ->]]; cbn; [tauto |].
      split; [split; discriminate | discriminate].
    - subst s'. cbn. tauto.
    - destruct Hscreen as (-> & Hcap & _).
      assert (ci <> None) by (intros ->; discriminate).
      destruct Heffect as [[url ->] | ->]; cbn;
        (split; [split; [discriminate | contradiction] | discriminate]).
    - destruct Hscreen as [-> _]. subst s'. cbn.
      assert (ci <> None) by (intros Hci; apply IH1 in Hci; discriminate).
      split; [split; [discriminate | contradiction] | discriminate].
    - subst s'. cbn. tauto.
    - subst s'. cbn. tauto. }
  destruct Hinv as [Hcap Hsel]. split; [exact Hcap |]. split; [exact Hsel |].
  intros s1 s2 Hshutter Hretake.
  apply session_step_effect in Hshutter as [Hcam Hs1].
  apply session_step_effect in Hretake as [[Hprev _] Hs2].
  cbn in Hcam, Hs1, Hs2.
  destruct s as [a ci sf pi iu er]. cbn in *. subst a.
  destruct Hs1 as [-> | [url ->]]; cbn in *; [discriminate |].
  subst s2. cbn. rewrite (proj1 Hcap eq_refl), (Hsel eq_refl). reflexivity.
Qed.

(** X15.  In every session reached from the first render (user actions run
    to completion): [isUploading] is false, [error] is unset or the fixed
    failure message, and in [processing] there is a result and no error.
    Hence the error view is never rendered and Try Again is never on
    screen. *)
Theorem reachable_processing_shows_result (tr : list Control) (s : Session) :
  reachable BUCKET_ID tr s ->
  isUploading s = false
  /\ (error s = None \/ error s = Some upload_failed_message)
  /\ (appState s = processing -> error s = None /\ is_Some (processedImage s))
  /\ (forall message, render s <> ErrorView message)
  /\ onClick BUCKET_ID s TryAgain = None.
Proof.
  intros Hreach.
  assert (Hinv : isUploading s = false
                 /\ (error s = None \/ error s = Some upload_failed_message)
                 /\ (appState s = processing ->
                     error s = None /\ is_Some (processedImage s))).
  { induction Hreach as [| tr s c s' Hreach IH Hstep].
    - cbn. split; [reflexivity |]. split; [auto | discriminate].
    - destruct IH as (IH1 & IH2 & IH3). step_cases Hstep; cbn in IH1, IH2, IH3.
      + subst a. destruct Heffect as [-> | [url ->]]; cbn;
          (split; [exact IH1 |]; split; [exact IH2 | discriminate]).
      + subst s'. cbn. split; [exact IH1 |]. split; [exact IH2 | discriminate].
      + destruct Heffect as [[url ->] | ->]; cbn.
        * split; [reflexivity |]. split; [auto |]. intros _. split; [reflexivity | eauto].
        * split; [reflexivity |]. split; [auto | discriminate].
      + subst s'. cbn. split; [exact IH1 |]. split; [exact IH2 | discriminate].
      + subst s'. cbn. split; [exact IH1 |]. split; [exact IH2 | discriminate].
      + subst s'. cbn. auto. }
  destruct Hinv as (Hup & Herr & Hproc).
  split; [exact Hup |]. split; [exact Herr |]. split; [exact Hproc |].
  assert (Hnot : ~ on_screen s TryAgain).
  { intros [Hstate Htruthy]. destruct (Hproc Hstate) as [Hnone _].
    rewrite Hnone in Htruthy. discriminate. }
  split.
  - intros message Hview. apply Hnot. unfold render in Hview. cbn.
    destruct (appState s); try discriminate.
    + destruct (truthy (capturedImage s)); discriminate.
    + split; [reflexivity |]. destruct (truthy (error s)); [reflexivity |].
      destruct (negb (truthy (processedImage s))); discriminate.
  - apply onClick_on_screen. exact Hnot.
Qed.

(** X16.  In every session reached from the first render the selected
    filter, if any, is an id of the catalog, and a filter is selected
    whenever the view is [processing]. *)
Theorem reachable_selectedFilter_in_catalog (tr : list Control) (s : Session) :
  reachable BUCKET_ID tr s ->
  (forall f, selectedFilter s = Some f -> f ∈ id <$> filterImages)
  /\ (appState s = processing -> is_Some (selectedFilter s)).
Proof.
  induction 1 as [| tr s c s' Hreach IH Hstep].
  - cbn. split; [discriminate | discriminate].
  - destruct IH as [IH1 IH2]. step_cases Hstep; cbn in IH1, IH2.
    + subst a. destruct Heffect as [-> | [url ->]]; cbn;
        (split; [exact IH1 | discriminate]).
    + subst s'. cbn. split; discriminate.
    + destruct Hscreen as (_ & _ & Hin).
      destruct Heffect as [[url ->] | ->]; cbn;
        (split; [intros f [= <-]; exact Hin | first [discriminate | eauto]]).
    + subst s'. cbn. split; [exact IH1 | discriminate].
    + subst s'. cbn. split; discriminate.
    + subst s'. cbn. split; [exact IH1 | exact IH2].
Qed.


(** X18.  Download is on screen only in [processing] with a non-empty
    result, and its handler clicks one link to that result with the file
    name [artistic-photo.png], changing nothing else. *)
Theorem download_click (s : Session) (h : Prog unit) :
  onClick BUCKET_ID s Download = Some h ->
  exists url,
    processedImage s = Some url
    /\ url <> EmptyString
    /\ appState s = processing
    /\ forall E w,
         run E h w = (inr tt, log_download (url, "artistic-photo.png") w).
Proof.
  intros Hclick. apply onClick_Some in Hclick as [(Hstate & _ & Hres) ->].
  destruct (processedImage s) as [url |] eqn:Hurl; [| discriminate].
  exists url. split; [reflexivity |]. split.
  - intros ->. discriminate.
  - split; [exact Hstate |]. intros E w. cbn. rewrite Hurl. reflexivity.
Qed.

End SessionMore.

(** ** [takePicture] and the canvas *)

(** X19.  With a video element and a canvas, what [takePicture] leaves in
    the canvas and in [capturedImage] does not depend on the size or the
    content the canvas had before.  It never touches the tracks, the video
    element, the result, the error or the selected filter. *)
Theorem takePicture_ignores_previous_canvas (E : Env) (w1 w2 : World)
    (video : Video) (c1 c2 : Canvas) :
  videoRef w1 = Some video -> videoRef w2 = Some video ->
  canvasRef w1 = Some c1 -> canvasRef w2 = Some c2 ->
  cv_context2d c1 = cv_context2d c2 ->
  canvasRef (snd (run E takePicture w1)) = canvasRef (snd (run E takePicture w2))
  /\ (cv_context2d c1 = true ->
      capturedImage (session (snd (run E takePicture w1)))
      = capturedImage (session (snd (run E takePicture w2))))
  /\ tracks (snd (run E takePicture w1)) = tracks w1
  /\ videoRef (snd (run E takePicture w1)) = videoRef w1
  /\ processedImage (session (snd (run E takePicture w1)))
     = processedImage (session w1)
  /\ error (session (snd (run E takePicture w1))) = error (session w1)
  /\ selectedFilter (session (snd (run E takePicture w1)))
     = selectedFilter (session w1).
Proof.
  destruct w1 as [s1 v1 cv1 ts1 co1 sl1 dl1], w2 as [s2 v2 cv2 ts2 co2 sl2 dl2].
  cbn. intros -> -> -> -> Hctx. unfold takePicture. cbn.
  assert (Hsize : forall x y, canvas_set_height y (canvas_set_width x c1)
                              = canvas_set_height y (canvas_set_width x c2))
    by (intros x y; unfold canvas_set_height, canvas_set_width; cbn;
        rewrite Hctx; reflexivity).
  rewrite <- Hctx. destruct (cv_context2d c1); cbn; rewrite ?Hsize;
    repeat split; congruence.
Qed.

(** ** Leaving the camera view *)

Lemma run_to_await_bind_done {A B : Type} (E : Env) (p : Prog A) (f : A -> Prog B)
    (w w' : World) (a : A) :
  run_to_await E p w = (Done a, w') ->
  run_to_await E (bind p f) w = run_to_await E (f a) w'.
Proof.
  revert w. induction p as [x | e | X c k IH | aw k IH]; intros w; cbn.
  - intros [= -> ->]. reflexivity.
  - discriminate.
  - destruct (perform E c w) as [x w1]. apply IH.
  - discriminate.
Qed.

Lemma run_to_await_forEach_stop (E : Env) (stream : MediaStream) (w : World) :
  run_to_await E (forEach stream (fun track => call (TrackStop track))) w
  = (Done tt, with_tracks (stop_all stream) w).
Proof.
  revert w. induction stream as [| t stream IH]; intros w.
  - destruct w. reflexivity.
  - change (forEach (t :: stream) (fun track => call (TrackStop track)))
      with (bind (call (TrackStop t))
              (fun _ => forEach stream (fun track => call (TrackStop track)))).
    rewrite (run_to_await_bind_done E (call (TrackStop t)) _ w
               (with_tracks (fun ts => <[t := ended]> ts) w) tt)
      by reflexivity.
    rewrite IH. destruct w. reflexivity.
Qed.

Lemma run_to_await_stopCamera (E : Env) (w : World) :
  run_to_await E stopCamera w
  = (Done tt,
     match videoRef w ≫= srcObject with
     | Some stream => with_tracks (stop_all stream) w
     | None => w
     end).
Proof.
  unfold stopCamera. cbn -[forEach].
  destruct (videoRef w) as [v |]; cbn -[forEach]; [| reflexivity].
  destruct (srcObject v) as [stream |]; cbn -[forEach]; [| reflexivity].
  apply run_to_await_forEach_stop.
Qed.

Lemma spawn_done (E : Env) (p : Prog unit) (m : Machine) (w' : World) :
  run_to_await E p (world m) = (Done tt, w') ->
  spawn E p m = with_world (fun _ => w') m.
Proof. unfold spawn. intros ->. reflexivity. Qed.

Lemma run_to_await_takePicture (E : Env) (w : World) (video : Video) (canvas : Canvas) :
  videoRef w = Some video ->
  canvasRef w = Some canvas ->
  cv_context2d canvas = true ->
  exists w1,
    run_to_await E takePicture w = (Done tt, w1)
    /\ appState (session w1) = preview
    /\ videoRef w1 = videoRef w
    /\ tracks w1 = tracks w.
Proof.
  destruct w as [s v cv ts co sl dl]. cbn. intros -> -> Hctx.
  unfold takePicture. cbn. rewrite Hctx. cbn.
  eexists. split; [reflexivity |]. repeat split.
Qed.

Lemma shows_video_outside_camera (s : Session) :
  appState s <> camera -> shows_video (render s) = false.
Proof.
  unfold render. destruct (appState s); [contradiction | |]; intros _.
  - destruct (truthy (capturedImage s)); reflexivity.
  - destruct (truthy (error s)); [reflexivity |].
    destruct (negb (truthy (processedImage s))); reflexivity.
Qed.

Section LeavingCamera.

Variable BUCKET_ID : string.
Variable E : Env.

(** X20.  The mounted component in the camera view, a stream bound to its
    video element and the cleanup registered: pressing the shutter leads to
    [preview], removes the video element and consumes the cleanup.  The
    tracks of the stream are stopped when the cleanup runs before the
    element is detached, and are all left as they were when the element is
    detached first. *)
Theorem shutter_stops_stream_only_if_cleanup_sees_video
    (detach_first : bool) (m m' : Machine)
    (video : Video) (stream : MediaStream) (canvas : Canvas) :
  mounted m = true ->
  appState (session (world m)) = camera ->
  cleanup m = Some stopCamera ->
  videoRef (world m) = Some video ->
  srcObject video = Some stream ->
  canvasRef (world m) = Some canvas ->
  cv_context2d canvas = true ->
  mstep BUCKET_ID E detach_first m (Click Shutter) = Some m' ->
  appState (session (world m')) = preview
  /\ videoRef (world m') = None
  /\ cleanup m' = None
  /\ pending m' = pending m
  /\ tracks (world m')
     = if detach_first then tracks (world m)
       else stop_all stream (tracks (world m)).
Proof.
  intros Hmounted Hstate Hcleanup Hvideo Hsrc Hcanvas Hctx Hstep.
  unfold mstep in Hstep. rewrite Hmounted in Hstep.
  assert (Hclick : onClick BUCKET_ID (session (world m)) Shutter = Some takePicture).
  { unfold onClick, controls, render. rewrite Hstate. reflexivity. }
  rewrite Hclick in Hstep. cbn [mbind option_bind] in Hstep.
  injection Hstep as <-.
  destruct (run_to_await_takePicture E (world m) video canvas Hvideo Hcanvas Hctx)
    as (w1 & Hrun & Hstate1 & Hvideo1 & Htracks1).
  unfold dispatch. rewrite Hmounted, (spawn_done E _ m w1 Hrun), Hstate.
  unfold commit. cbn [world with_world]. rewrite Hstate1.
  destruct (decide (camera = preview)) as [[=] | _].
  assert (Hoff : forall w, appState (session w) = preview ->
                           shows_video (render (session w)) = false).
  { intros w Hw. apply shows_video_outside_camera. rewrite Hw. discriminate. }
  unfold run_effect, cameraEffect.
  destruct (decide (preview = camera)) as [[=] | _].
  unfold attach_video, detach_video, run_cleanup.
  destruct detach_first; cbn [world with_world cleanup mounted pending granted].
  - rewrite (Hoff w1 Hstate1). cbn [world with_world cleanup]. rewrite Hcleanup.
    rewrite (spawn_done E stopCamera _ (set_videoRef None w1))
      by (rewrite run_to_await_stopCamera; reflexivity).
    cbn [world with_world with_cleanup cleanup pending].
    rewrite (Hoff (set_videoRef None w1)) by exact Hstate1.
    cbn. repeat split; assumption.
  - rewrite Hcleanup.
    rewrite (spawn_done E stopCamera _ (with_tracks (stop_all stream) w1)).
    2:{ rewrite run_to_await_stopCamera. cbn [world with_world with_cleanup].
        rewrite Hvideo1, Hvideo. cbn. rewrite Hsrc. reflexivity. }
    cbn [world with_world with_cleanup cleanup pending].
    assert (Hstate2 : appState (session (with_tracks (stop_all stream) w1)) = preview)
      by exact Hstate1.
    rewrite (Hoff _ Hstate2). cbn [world with_world].
    rewrite (Hoff (set_videoRef None (with_tracks (stop_all stream) w1)))
      by exact Hstate1.
    cbn. rewrite Htracks1. repeat split; assumption.
Qed.

End LeavingCamera.

(** ** The further properties on concrete inputs *)

Lemma match_mime_sound_witness :
  has_char ";"%char "image/png" = false
  /\ has_line_terminator "image/png" = false
  /\ exists pre post,
       "data:image/png;base64"
       = pre +:+ String ":"%char ("image/png" +:+ String ";"%char post).
Proof.
  exact (match_mime_sound "data:image/png;base64" "image/png" eq_refl).
Defined.

Lemma match_mime_first_colon_witness :
  match_mime ("data" +:+ String ":"%char ("image/png" +:+ String ";"%char "base64"))
  = Some "image/png".
Proof.
  exact (match_mime_first_colon "data" "image/png" "base64" eq_refl eq_refl eq_refl).
Defined.

Lemma match_mime_none_witness : match_mime "data:," = None.
Proof. exact (match_mime_none "data:," (or_intror eq_refl)). Defined.

Lemma dataURLtoFile_success_witness :
  Forall (fun b => 0 <= b < 256) [137; 80; 78; 71; 13; 10; 26; 10].
Proof.
  pose proof (dataURLtoFile_success reference_env empty_world empty_world
                (Some png_signature_url) "photo.png"
                {| file_bits := [137; 80; 78; 71; 13; 10; 26; 10];
                   file_name := "photo.png"; file_type := Some "image/png" |}
                eq_refl) as (_ & _ & Hrange & _).
  exact Hrange.
Defined.

Lemma dataURLtoFile_header_payload_witness :
  run reference_env (dataURLtoFile (Some png_signature_url) "photo.png") empty_world
  = (inr {| file_bits := [137; 80; 78; 71; 13; 10; 26; 10];
            file_name := "photo.png"; file_type := Some "image/png" |},
     empty_world).
Proof.
  pose proof (dataURLtoFile_header_payload reference_env empty_world
                "data:image/png;base64" "iVBORw0KGgo=" _ "photo.png"
                eq_refl eq_refl eq_refl) as Hrun.
  exact Hrun.
Defined.

Lemma startCamera_then_stopCamera_witness :
  tracks (snd (run reference_env stopCamera
                 (snd (run reference_env startCamera (world_of initial_session)))))
  = [live; ended].
Proof.
  destruct (startCamera_then_stopCamera reference_env (world_of initial_session)
              1%nat eq_refl) as (_ & _ & _ & _ & Hbound & _).
  apply Hbound. eexists. reflexivity.
Defined.

Lemma startCamera_twice_leaks_first_stream_witness :
  tracks (snd (run reference_env stopCamera
                 (snd (run reference_env startCamera
                         (snd (run reference_env startCamera
                                 (world_of initial_session)))))))
  = [live; live; ended].
Proof.
  apply (proj2 (startCamera_twice_leaks_first_stream reference_env reference_env
                  reference_env (world_of initial_session) 1%nat 1%nat
                  (ex_intro _ _ eq_refl) eq_refl eq_refl)).
Defined.

Lemma upload_path_follows_clock_witness :
  "originals/photo-1700000000000.png" <> "originals/photo-1700000000001.png".
Proof.
  intros Hsame.
  destruct (upload_path_follows_clock "photos" reference_env later_env
              (Some png_signature_url) (Some png_signature_url) 1 2
              (world_of first_preview) (world_of second_preview)
              _ _ _ _ _ _ _ _ eq_refl eq_refl) as ([Hclock _] & _).
  specialize (Hclock Hsame). discriminate Hclock.
Defined.

Lemma reachable_capture_iff_left_camera_witness :
  appState back_in_camera = camera <-> capturedImage back_in_camera = None.
Proof.
  exact (proj1 (reachable_capture_iff_left_camera "photos"
                  [Shutter; FilterTile 1; TakeNewPhoto] back_in_camera
                  back_in_camera_reachable)).
Defined.

Lemma reachable_processing_shows_result_witness :
  onClick "photos" first_result TryAgain = None.
Proof.
  destruct (reachable_processing_shows_result "photos" [Shutter; FilterTile 1]
              first_result first_result_reachable) as (_ & _ & _ & _ & Hnone).
  exact Hnone.
Defined.

Lemma reachable_selectedFilter_in_catalog_witness : 1 ∈ id <$> filterImages.
Proof.
  exact (proj1 (reachable_selectedFilter_in_catalog "photos" [Shutter; FilterTile 1]
                  first_result first_result_reachable) 1 eq_refl).
Defined.


Lemma download_click_witness :
  exists url,
    processedImage first_result = Some url
    /\ forall E w,
         run E (call (LinkClick photo_url "artistic-photo.png")) w
         = (inr tt, log_download (url, "artistic-photo.png") w).
Proof.
  destruct (download_click "photos" first_result
              (call (LinkClick photo_url "artistic-photo.png")) eq_refl)
    as (url & Hurl & _ & _ & Hrun).
  exists url. split; [exact Hurl | exact Hrun].
Defined.

Lemma takePicture_ignores_previous_canvas_witness :
  canvasRef (snd (run reference_env takePicture (world_of initial_session)))
  = canvasRef (snd (run reference_env takePicture
                      (world_with_used_canvas initial_session))).
Proof.
  refine (proj1 (takePicture_ignores_previous_canvas reference_env
                   (world_of initial_session)
                   (world_with_used_canvas initial_session)
                   _ _ _ eq_refl eq_refl eq_refl eq_refl eq_refl)).
Defined.

Lemma shutter_stops_stream_only_if_cleanup_sees_video_witness :
  exists m',
    mstep "photos" reference_env false camera_running (Click Shutter) = Some m'
    /\ tracks (world m') = [ended].
Proof.
  destruct (mstep "photos" reference_env false camera_running (Click Shutter))
    as [m' |] eqn:Hstep.
  - exists m'. split; [reflexivity |].
    destruct (shutter_stops_stream_only_if_cleanup_sees_video "photos"
                reference_env false camera_running m' _ [0%nat] _
                eq_refl eq_refl eq_refl eq_refl eq_refl eq_refl eq_refl Hstep)
      as (_ & _ & _ & _ & Htracks).
    exact Htracks.
  - vm_compute in Hstep. discriminate Hstep.
Defined.
